(** * jw-scraping: key derivation, discovery, HTML normalisation and search index

    A shallow embedding of the TypeScript services of the repository:
    - [Crypto]    : src/src/services/crypto.ts   (CryptoService)
    - [Discovery] : DiscoveryService.discover
    - [Parsing]   : ParsingService.parseDocument
    - [Search]    : EpubSearchEngine in src/src/bible_epub_poc.ts

    JavaScript strings are modelled as Rocq [string]s (8-bit characters,
    i.e. the code points below 256); bytes of a [Uint8Array] as [Z]s. *)

From Stdlib Require Import ZArith List String Ascii Bool Lia.
From Stdlib Require Import DecimalString DecimalZ Sorted Permutation.
Import ListNotations.
Open Scope Z_scope.

(** ** Small string helpers shared by the modules *)

Definition code (c : ascii) : Z := Z.of_nat (nat_of_ascii c).
Definition chr (n : Z) : ascii := ascii_of_nat (Z.to_nat n).

(** JavaScript truthiness of a string: [s1 || s2]. *)
Definition str_or (s1 s2 : string) : string :=
  match s1 with EmptyString => s2 | _ => s1 end.

(** [s.padStart(2, '0')]. *)
Definition padStart2 (s : string) : string :=
  if (String.length s <? 2)%nat then String "0" s else s.

(** [String(n)] / [`${n}`] of an integer: its decimal rendering. *)
Definition string_of_Z (z : Z) : string := NilZero.string_of_int (Z.to_int z).

(** JavaScript white space ([\s], and what [trim] removes) below code point 256. *)
Definition is_js_space (c : ascii) : bool :=
  let n := code c in ((9 <=? n) && (n <=? 13)) || (n =? 32) || (n =? 160).

Fixpoint trim_start (s : string) : string :=
  match s with
  | String c r => if is_js_space c then trim_start r else s
  | EmptyString => EmptyString
  end.

Definition string_rev (s : string) : string :=
  string_of_list_ascii (rev (list_ascii_of_string s)).

(** [s.trim()] *)
Definition trim (s : string) : string := string_rev (trim_start (string_rev (trim_start s))).

(** [s.toLowerCase()] below code point 256. *)
Definition lower_char (c : ascii) : ascii :=
  let n := code c in
  if ((65 <=? n) && (n <=? 90)) || ((192 <=? n) && (n <=? 222) && negb (n =? 215))
  then chr (n + 32) else c.

Definition to_lower (s : string) : string :=
  string_of_list_ascii (map lower_char (list_ascii_of_string s)).

(** [s.startsWith(p)] *)
Definition startsWith (p s : string) : bool := String.prefix p s.

(** [s.replace(pat, rep)] with a string pattern: the first occurrence only. *)
Fixpoint replace_first (pat rep s : string) : string :=
  if String.prefix pat s then (rep ++ substring (String.length pat)
                                              (String.length s - String.length pat) s)%string
  else match s with
       | EmptyString => EmptyString
       | String c r => String c (replace_first pat rep r)
       end.

(** [s.split(sep)] for a one-character separator; [""] splits to [[""]]. *)
Fixpoint split_char (sep : ascii) (s : string) : list string :=
  match s with
  | EmptyString => [EmptyString]
  | String c r =>
      if Ascii.eqb c sep then EmptyString :: split_char sep r
      else match split_char sep r with
           | w :: ws => String c w :: ws
           | [] => [String c EmptyString]
           end
  end.

(** [arr.pop()] on the (never empty) result of [split]. *)
Definition pop (l : list string) : string := last l EmptyString.

Module Crypto.

(** [TextEncoder.encode]: UTF-8 of a string whose code points are below 256. *)
Definition utf8_encode_char (c : ascii) : list Z :=
  let n := code c in
  if n <? 128 then [n] else [192 + n / 64; 128 + n mod 64].

Definition TextEncoder_encode (s : string) : list Z :=
  flat_map utf8_encode_char (list_ascii_of_string s).

(** [atob]: the forgiving-base64 decode of the HTML standard. [None] is the
    [InvalidCharacterError] it throws. The result is a binary string, one
    character per decoded byte. *)
Definition b64_value (c : ascii) : option Z :=
  let n := code c in
  if (65 <=? n) && (n <=? 90) then Some (n - 65)
  else if (97 <=? n) && (n <=? 122) then Some (n - 71)
  else if (48 <=? n) && (n <=? 57) then Some (n + 4)
  else if n =? 43 then Some 62
  else if n =? 47 then Some 63
  else None.

Definition is_ascii_whitespace (c : ascii) : bool :=
  let n := code c in
  (n =? 9) || (n =? 10) || (n =? 12) || (n =? 13) || (n =? 32).

Fixpoint map_option {A B} (f : A -> option B) (l : list A) : option (list B) :=
  match l with
  | [] => Some []
  | x :: r =>
      match f x, map_option f r with
      | Some y, Some ys => Some (y :: ys)
      | _, _ => None
      end
  end.

Fixpoint b64_groups (vs : list Z) : list Z :=
  match vs with
  | a :: b :: c :: d :: rest =>
      [Z.lor (Z.shiftl a 2) (Z.shiftr b 4);
       Z.lor (Z.shiftl (Z.land b 15) 4) (Z.shiftr c 2);
       Z.lor (Z.shiftl (Z.land c 3) 6) d] ++ b64_groups rest
  | [a; b; c] =>
      [Z.lor (Z.shiftl a 2) (Z.shiftr b 4);
       Z.lor (Z.shiftl (Z.land b 15) 4) (Z.shiftr c 2)]
  | [a; b] => [Z.lor (Z.shiftl a 2) (Z.shiftr b 4)]
  | _ => []
  end.

Definition strip_padding (l : list ascii) : list ascii :=
  if (List.length l mod 4 =? 0)%nat then
    match rev l with
    | "="%char :: "="%char :: r => rev r
    | "="%char :: r => rev r
    | _ => l
    end
  else l.

Definition atob (s : string) : option string :=
  let l := strip_padding (filter (fun c => negb (is_ascii_whitespace c))
                                 (list_ascii_of_string s)) in
  if (List.length l mod 4 =? 1)%nat then None
  else match map_option b64_value l with
       | Some vs => Some (string_of_list_ascii (map chr (b64_groups vs)))
       | None => None
       end.

(** [hexToBytes]: drop the non-hex characters, then read
    [clean.length / 2] pairs with [parseInt(_, 16)]; [new Uint8Array] truncates
    an odd half-length, so a trailing odd digit is dropped. *)
Definition hex_value (c : ascii) : option Z :=
  let n := code c in
  if (48 <=? n) && (n <=? 57) then Some (n - 48)
  else if (97 <=? n) && (n <=? 102) then Some (n - 87)
  else if (65 <=? n) && (n <=? 70) then Some (n - 55)
  else None.

Definition is_hex (c : ascii) : bool :=
  match hex_value c with Some _ => true | None => false end.

Definition hex_val (c : ascii) : Z :=
  match hex_value c with Some v => v | None => 0 end.

Fixpoint hex_pairs (l : list ascii) : list Z :=
  match l with
  | a :: b :: r => (16 * hex_val a + hex_val b) :: hex_pairs r
  | _ => []
  end.

Definition hexToBytes (hex : string) : list Z :=
  hex_pairs (filter is_hex (list_ascii_of_string hex)).

(** [bytesToHex]: [b.toString(16).padStart(2, '0')] for every byte
    [0 <= b < 256], joined. *)
Definition hex_digit (n : Z) : ascii :=
  if n <? 10 then chr (48 + n) else chr (87 + n).

Definition toString16 (b : Z) : string :=
  if b <? 16 then String (hex_digit b) EmptyString
  else String (hex_digit (b / 16)) (String (hex_digit (b mod 16)) EmptyString).

Fixpoint bytesToHex (bytes : list Z) : string :=
  match bytes with
  | [] => EmptyString
  | b :: r => (padStart2 (toString16 b) ++ bytesToHex r)%string
  end.

(** [xorBuffers]: [buf1.map((byte, i) => byte ^ buf2[i % buf2.length])];
    the result is a [Uint8Array], so each value is stored modulo 256. With an
    empty [buf2] the index is [NaN] and [byte ^ undefined] is [byte]. *)
Definition xor_at (buf2 : list Z) (i : nat) (byte : Z) : Z :=
  match buf2 with
  | [] => byte mod 256
  | _ => Z.lxor byte (nth (i mod List.length buf2) buf2 0) mod 256
  end.

Fixpoint map_from {A B} (f : nat -> A -> B) (i : nat) (l : list A) : list B :=
  match l with
  | [] => []
  | x :: r => f i x :: map_from f (S i) r
  end.

Definition xorBuffers (buf1 buf2 : list Z) : list Z :=
  map_from (xor_at buf2) 0 buf1.

Definition masterKeyBase64 : string :=
  "MTFjYmI1NTg3ZTMyODQ2ZDRjMjY3OTBjNjMzZGEyODlmNjZmZTU4NDJhM2E1ODVjZTFiYzNhMjk0YWY1YWRhNw==".

Section Derive.

(** [crypto.subtle.digest('SHA-256', _)], a primitive of the platform. *)
Variable generateSHA256 : list Z -> list Z.

(** [getDeriveKeyAndIv]; [None] would be the exception of [atob]. *)
Definition getDeriveKeyAndIv (pubCard : string) : option (string * string) :=
  match atob masterKeyBase64 with
  | None => None
  | Some masterKeyHex =>
      let hashBytes := generateSHA256 (TextEncoder_encode pubCard) in
      let keyBytes := hexToBytes masterKeyHex in
      let xored := xorBuffers hashBytes keyBytes in
      let fullKeyHex := bytesToHex xored in
      Some (substring 0 32 fullKeyHex, substring 32 32 fullKeyHex)
  end.

End Derive.

(** The settlement of the promise returned by [decryptAndInflate]. *)
Inductive Error :=
  | DataError               (* [importKey]: a raw key of a length other than 16, 24, 32 *)
  | OperationError          (* [decrypt] *)
  | Thrown (msg : string).  (* the message thrown by pako's [inflate] *)

Inductive Outcome := Resolved (s : string) | Rejected (e : Error).

(** What pako's [inflate] does on an input: return its output or throw. *)
Inductive InflateResult := Inflated (out : list Z) | InflateThrows (msg : string).

Section Decrypt.

(** The AES block decryption of one 16-byte block under a key. *)
Variable aes_decrypt_block : list Z -> list Z -> list Z.
(** pako's [inflate]. *)
Variable inflate : list Z -> InflateResult.
(** [new TextDecoder().decode]. *)
Variable utf8_decode : list Z -> string.

(** [crypto.subtle.importKey('raw', _, {name: 'AES-CBC'}, ...)]. *)
Definition importKey (raw : list Z) : option (list Z) :=
  let n := List.length raw in
  if (n =? 16)%nat || (n =? 24)%nat || (n =? 32)%nat then Some raw else None.

(** CBC decryption (SP 800-38A): [P_i = D(C_i) xor C_(i-1)], [C_0 = IV]. *)
Fixpoint cbc_decrypt_fuel (fuel : nat) (key prev data : list Z) : list Z :=
  match fuel with
  | O => []
  | S f =>
      match data with
      | [] => []
      | _ =>
          let c := firstn 16 data in
          map (fun '(x, y) => Z.lxor x y) (combine (aes_decrypt_block key c) prev) ++
          cbc_decrypt_fuel f key c (skipn 16 data)
      end
  end.

(** The padding check of the AES-CBC decrypt operation of Web Crypto: the
    last octet [p] is in [1..16] and the last [p] octets all equal [p]. *)
Definition valid_padding (pt : list Z) : bool :=
  match rev pt with
  | [] => false
  | p :: _ => (0 <? p) && (p <=? 16) && forallb (Z.eqb p) (firstn (Z.to_nat p) (rev pt))
  end.

Definition unpad (pt : list Z) : list Z :=
  firstn (List.length pt - Z.to_nat (last pt 0)) pt.

(** [crypto.subtle.decrypt({name: 'AES-CBC', iv}, key, data)]; [None] is its
    [OperationError]: an IV that is not 16 bytes, a ciphertext that is empty
    or not a whole number of blocks, or a bad padding. *)
Definition aes_cbc_decrypt (key iv data : list Z) : option (list Z) :=
  if negb (List.length iv =? 16)%nat then None
  else if negb (List.length data mod 16 =? 0)%nat || (List.length data =? 0)%nat then None
  else let pt := cbc_decrypt_fuel (List.length data) key iv data in
       if valid_padding pt then Some (unpad pt) else None.

Definition decryptAndInflate (data : list Z) (keyHex ivHex : string) : Outcome :=
  match importKey (hexToBytes keyHex) with
  | None => Rejected DataError
  | Some cryptoKey =>
      match aes_cbc_decrypt cryptoKey (hexToBytes ivHex) data with
      | None => Rejected OperationError
      | Some decrypted =>
          match inflate decrypted with
          | InflateThrows msg => Rejected (Thrown msg)
          | Inflated decompressed => Resolved (utf8_decode decompressed)
          end
      end
  end.

End Decrypt.

End Crypto.

Module Discovery.

(** One entry of the [JWPUB] / [EPUB] arrays: [{ file: { url }, url }]. *)
Record LangMedia := mkLangMedia { file_url : option string; url : option string }.

(** [data.files[language]]: the [JWPUB] and [EPUB] arrays, each possibly absent. *)
Record LangData := mkLangData {
  JWPUB : option (list LangMedia);
  EPUB : option (list LangMedia) }.

(** The body of a response as the code reads it: either [response.json()]
    rejects (or [data] is [null] and [data.files] throws), or [data.files] is
    an object (absent: [None]) mapping language codes to [LangData]. *)
Inductive Body :=
| BodyThrows
| BodyJson (files : option (list (string * LangData))).

(** The outcome of one [fetch]: a response with its status, or a rejection of
    [fetch] itself (DNS failure, timeout, ...). *)
Inductive Response :=
| Resp (status : Z) (body : Body)
| FetchError.

Record DiscoveredPublication := mkDiscovered {
  pub : string;
  issue : string;
  language : string;
  jwpubUrl : option string;
  epubUrl : option string }.

(** [a || b] on optional strings: [undefined] and [""] are falsy. *)
Definition or_url (a b : option string) : option string :=
  match a with
  | Some EmptyString | None => b
  | Some _ => a
  end.

(** [langData.X?.[0]?.file?.url || langData.X?.[0]?.url] *)
Definition first_url (arr : option (list LangMedia)) : option string :=
  match arr with
  | Some (m :: _) => or_url (file_url m) (url m)
  | _ => None
  end.

(** [data.files?.[language]]; a JSON object keeps the last binding of a key. *)
Definition langData_of (files : option (list (string * LangData))) (language : string)
  : option LangData :=
  match files with
  | None => None
  | Some kvs =>
      match find (fun kv => String.eqb (fst kv) language) (rev kvs) with
      | Some (_, v) => Some v
      | None => None
      end
  end.

Record State := mkState {
  currentYear : Z;
  currentMonth : Z;
  notFoundCount : Z;
  discovered : list DiscoveredPublication }.

Definition maxNotFound : Z := 1.

Definition issueDate (year month : Z) : string :=
  (string_of_Z year ++ padStart2 (string_of_Z month))%string.

(** Initial state: [currentYear = 2025], [currentMonth = now.getMonth() + 1],
    moved back to the odd month for [mwb]. *)
Definition init (pub : string) (nowGetMonth : Z) : State :=
  let m := nowGetMonth + 1 in
  let m := if String.eqb pub "mwb" then (if m mod 2 =? 0 then m - 1 else m) else m in
  mkState 2025 m 0 [].

(** "Avanzar al siguiente issue". *)
Definition advance (pub : string) (st : State) : State :=
  let m := if String.eqb pub "mwb" then currentMonth st + 2 else currentMonth st + 1 in
  if m >? 12 then mkState (currentYear st + 1) (m - 12) (notFoundCount st) (discovered st)
  else mkState (currentYear st) m (notFoundCount st) (discovered st).

(** One iteration of the [while] body, given the outcome of the [fetch]. *)
Definition step (pub language : string) (st : State) (r : Response) : State :=
  let issueD := issueDate (currentYear st) (currentMonth st) in
  let miss := mkState (currentYear st) (currentMonth st) (notFoundCount st + 1)
                      (discovered st) in
  let st1 :=
    match r with
    | Resp status body =>
        if status =? 200 then
          match body with
          | BodyThrows => miss
          | BodyJson files =>
              let disc :=
                match langData_of files language with
                | Some langData =>
                    discovered st ++
                      [mkDiscovered pub issueD language
                         (first_url (JWPUB langData)) (first_url (EPUB langData))]
                | None => discovered st
                end in
              mkState (currentYear st) (currentMonth st) 0 disc
          end
        else miss
    | FetchError => miss
    end in
  advance pub st1.

(** The [while (notFoundCount < maxNotFound)] loop, fed with the outcomes of
    its successive fetches. [None]: the given outcomes ran out while the loop
    still wanted to fetch. Otherwise the final state and the outcomes left. *)
Fixpoint run (pub language : string) (st : State) (rs : list Response)
  : option (State * list Response) :=
  if notFoundCount st <? maxNotFound then
    match rs with
    | [] => None
    | r :: rs' => run pub language (step pub language st r) rs'
    end
  else Some (st, rs).

(** [discover(pub, language)]; [nowGetMonth] is [new Date().getMonth()]. *)
Definition discover (pub language : string) (nowGetMonth : Z) (rs : list Response)
  : option (list DiscoveredPublication * list Response) :=
  match run pub language (init pub nowGetMonth) rs with
  | Some (st, rest) => Some (discovered st, rest)
  | None => None
  end.

End Discovery.

Module Parsing.

(** The tree of [node-html-parser]. The markup that [parseDocument] receives
    and the [root.toString()] it returns are represented by this tree: [parse]
    of a serialised tree gives the tree back. Attribute names are lower case
    (the parser's [getAttribute] is case-insensitive); [classList] is the
    element's [DOMTokenList], the set of its classes. An attribute holds the
    value [getAttribute] returns. Not modelled: [setAttribute] stores its value
    raw and re-serialises the element's attributes through [quoteAttribute],
    which drops backslashes, so a value with a backslash or entity-like text
    (an ampersand) reads back differently after [toString] and [parse]; the
    second-pass statement below only reads [src] values free of both. *)
#[local] Set Warnings "-register-all".
Inductive node :=
| Text (s : string)
| Element (tagName : string) (attrs : list (string * string))
          (classList : list string) (children : list node).

Definition getAttribute (attrs : list (string * string)) (k : string) : option string :=
  match find (fun kv => String.eqb (fst kv) k) attrs with
  | Some (_, v) => Some v
  | None => None
  end.

Definition setAttribute (k v : string) (attrs : list (string * string))
  : list (string * string) :=
  if existsb (fun kv => String.eqb (fst kv) k) attrs
  then map (fun kv => if String.eqb (fst kv) k then (k, v) else kv) attrs
  else attrs ++ [(k, v)].

Definition removeAttribute (k : string) (attrs : list (string * string))
  : list (string * string) :=
  filter (fun kv => negb (String.eqb (fst kv) k)) attrs.

(** [classList.add(c)] *)
Definition classList_add (c : string) (cl : list string) : list string :=
  if existsb (String.eqb c) cl then cl else cl ++ [c].

(** [getAttribute(k) || ''] *)
Definition opt_str (o : option string) : string :=
  match o with Some s => s | None => EmptyString end.

Fixpoint textContent (n : node) : string :=
  match n with
  | Text s => s
  | Element _ _ _ ch => String.concat EmptyString (map textContent ch)
  end.

(** The elements of a subtree in document order, the subtree's root first. *)
Fixpoint descendants (n : node) : list node :=
  match n with
  | Text _ => []
  | Element _ _ _ ch => n :: flat_map descendants ch
  end.

Definition has_tag (t : string) (n : node) : bool :=
  match n with
  | Element tg _ _ _ => String.eqb (to_lower tg) t
  | Text _ => false
  end.

(** [root.querySelectorAll(t)] and [root.querySelector(t)]; the root of
    [parse] is not itself matched, its children are the top-level nodes. *)
Definition querySelectorAll (t : string) (root : list node) : list node :=
  filter (has_tag t) (flat_map descendants root).

Definition querySelector (t : string) (root : list node) : option node :=
  hd_error (querySelectorAll t root).

Definition attrs_of (n : node) : list (string * string) :=
  match n with Element _ a _ _ => a | Text _ => [] end.

Inductive RefType := Bible | Publication | Video.
Inductive AssetType := Image | VideoAsset.

Record ExtractedReference := mkRef { ref_type : RefType; link : string; text : string }.
Record ExtractedAsset := mkAsset { fileName : string; altText : string; asset_type : AssetType }.

Record StructuredContent := mkContent {
  id : string;
  title : string;
  references : list ExtractedReference;
  assets : list ExtractedAsset;
  html : list node;
  paragraphs : list string }.

(** 2. the references of one anchor, in the order they are pushed. *)
Definition anchor_refs (a : node) : list ExtractedReference :=
  let href := opt_str (getAttribute (attrs_of a) "href") in
  let dataVideo := opt_str (getAttribute (attrs_of a) "data-video") in
  let txt := trim (textContent a) in
  (if startsWith "bible://" href then [mkRef Bible href txt]
   else if startsWith "jwpub://" href then [mkRef Publication href txt]
   else []) ++
  (if startsWith "webpubvid://" href || startsWith "webpubvid://" dataVideo
   then [mkRef Video (str_or dataVideo href) (str_or txt "Video")]
   else []).

(** 3. [src.replace('jwpub-media://', '').split('/').pop() || src] *)
Definition img_fileName (src : string) : string :=
  str_or (pop (split_char "/" (replace_first "jwpub-media://" "" src))) src.

Definition img_src (attrs : list (string * string)) : string :=
  opt_str (getAttribute attrs "src").

Definition img_asset (img : node) : ExtractedAsset :=
  mkAsset (img_fileName (img_src (attrs_of img)))
          (opt_str (getAttribute (attrs_of img) "alt")) Image.

(** The in-place rewriting of one [<img>]: [src], [width], [height], class. *)
Definition rewrite_img_attrs (attrs : list (string * string)) : list (string * string) :=
  removeAttribute "height"
    (removeAttribute "width"
       (setAttribute "src" ("./assets/" ++ img_fileName (img_src attrs)) attrs)).

(** The tree after step 3: every [<img>] of the document rewritten; the
    rewriting of one image does not read any other node. *)
Fixpoint rewrite_tree (n : node) : node :=
  match n with
  | Text s => Text s
  | Element t a cl ch =>
      if String.eqb (to_lower t) "img"
      then Element t (rewrite_img_attrs a) (classList_add "jw-image" cl)
                   (map rewrite_tree ch)
      else Element t a cl (map rewrite_tree ch)
  end.

Definition is_video (r : ExtractedReference) : bool :=
  match ref_type r with Video => true | _ => false end.

Definition title_of (root : list node) (t : string) : string :=
  match querySelector t root with
  | Some n => trim (textContent n)
  | None => EmptyString
  end.

Definition parseDocument (root : list node) (docId : string) : StructuredContent :=
  let title := str_or (title_of root "h1") (str_or (title_of root "h2") EmptyString) in
  let references := flat_map anchor_refs (querySelectorAll "a" root) in
  let images := querySelectorAll "img" root in
  let image_assets := map img_asset images in
  let root' := map rewrite_tree root in
  let video_assets :=
    map (fun v => mkAsset (link v) (text v) VideoAsset) (filter is_video references) in
  let paragraphs :=
    filter (fun t => negb (String.eqb t EmptyString))
           (map (fun p => trim (textContent p)) (querySelectorAll "p" root')) in
  mkContent docId title references (image_assets ++ video_assets) root' paragraphs.

End Parsing.

Module Search.

(** [html.replace(/<[^>]+>/g, ' ')]: a ['<'] starts a match when a ['>']
    follows it after at least one other character; the match ends at the
    first such ['>']. *)
Fixpoint after_gt (s : string) : option string :=
  match s with
  | EmptyString => None
  | String c r => if Ascii.eqb c ">" then Some r else after_gt r
  end.

Definition tag_rest (s : string) : option string :=
  match s with
  | String c r => if Ascii.eqb c ">" then None else after_gt r
  | EmptyString => None
  end.

Fixpoint strip_tags_fuel (fuel : nat) (s : string) : string :=
  match fuel with
  | O => s
  | S fuel' =>
      match s with
      | EmptyString => EmptyString
      | String c r =>
          if Ascii.eqb c "<"
          then match tag_rest r with
               | Some r' => String " " (strip_tags_fuel fuel' r')
               | None => String c (strip_tags_fuel fuel' r)
               end
          else String c (strip_tags_fuel fuel' r)
      end
  end.

Definition strip_tags (s : string) : string := strip_tags_fuel (String.length s) s.

(** [.replace(/\s+/g, ' ')]; [in_ws] tells whether the previous character
    was white space. *)
Fixpoint collapse_ws_aux (in_ws : bool) (s : string) : string :=
  match s with
  | EmptyString => EmptyString
  | String c r =>
      if is_js_space c
      then if in_ws then collapse_ws_aux true r else String " " (collapse_ws_aux true r)
      else String c (collapse_ws_aux false r)
  end.

Definition collapse_ws (s : string) : string := collapse_ws_aux false s.

(** [.normalize('NFD').replace(/[\u0300-\u036f]/g, '')] below code point
    256: a letter with a canonical decomposition loses its combining mark;
    every other character is unchanged. Characters from code point 256 on,
    and the canonical reordering NFD applies to their combining marks, are
    outside this model. *)
Definition strip_mark (c : ascii) : ascii :=
  let n := code c in
  if (192 <=? n) && (n <=? 197) then "A"%char
  else if n =? 199 then "C"%char
  else if (200 <=? n) && (n <=? 203) then "E"%char
  else if (204 <=? n) && (n <=? 207) then "I"%char
  else if n =? 209 then "N"%char
  else if (210 <=? n) && (n <=? 214) then "O"%char
  else if (217 <=? n) && (n <=? 220) then "U"%char
  else if n =? 221 then "Y"%char
  else if (224 <=? n) && (n <=? 229) then "a"%char
  else if n =? 231 then "c"%char
  else if (232 <=? n) && (n <=? 235) then "e"%char
  else if (236 <=? n) && (n <=? 239) then "i"%char
  else if n =? 241 then "n"%char
  else if (242 <=? n) && (n <=? 246) then "o"%char
  else if (249 <=? n) && (n <=? 252) then "u"%char
  else if (n =? 253) || (n =? 255) then "y"%char
  else c.

Definition strip_marks (s : string) : string :=
  string_of_list_ascii (map strip_mark (list_ascii_of_string s)).

(** [.replace(/[.,;:Q\u00ab\u00bb()!?]/g, '')] where Q stands for the double
    quote (code 34); the two guillemets are the codes 171 and 187. *)
Definition is_punct (c : ascii) : bool :=
  let n := code c in
  (n =? 46) || (n =? 44) || (n =? 59) || (n =? 58) || (n =? 34) || (n =? 171) ||
  (n =? 187) || (n =? 40) || (n =? 41) || (n =? 33) || (n =? 63).

Definition remove_punct (s : string) : string :=
  string_of_list_ascii (filter (fun c => negb (is_punct c)) (list_ascii_of_string s)).

(** [.split(/\s+/)]: the pieces between maximal runs of white space;
    [cur] is the piece being read, [in_ws] whether the previous character
    was white space. *)
Fixpoint split_ws_aux (in_ws : bool) (cur : string) (s : string) : list string :=
  match s with
  | EmptyString => [cur]
  | String c r =>
      if is_js_space c
      then if in_ws then split_ws_aux true cur r else cur :: split_ws_aux true EmptyString r
      else split_ws_aux false (cur ++ String c EmptyString) r
  end.

Definition split_ws (s : string) : list string := split_ws_aux false EmptyString s.

Definition tokenize (text : string) : list string :=
  filter (fun w => (2 <? String.length w)%nat)
         (split_ws (remove_punct (strip_marks (to_lower text)))).

Record BibleNode := mkNode { node_id : string; node_title : string;
                             node_text : string; node_html : string }.

(** A [Map] with string keys, in insertion order. *)
Definition map_get {V} (m : list (string * V)) (k : string) : option V :=
  match find (fun kv => String.eqb (fst kv) k) m with
  | Some (_, v) => Some v
  | None => None
  end.

Definition map_set {V} (m : list (string * V)) (k : string) (v : V) : list (string * V) :=
  if existsb (fun kv => String.eqb (fst kv) k) m
  then map (fun kv => if String.eqb (fst kv) k then (k, v) else kv) m
  else m ++ [(k, v)].

Record Engine := mkEngine { index : list (string * list string);
                            nodes : list (string * BibleNode) }.

Definition empty_engine : Engine := mkEngine [] [].

(** One iteration of [words.forEach] in [addNode]. *)
Definition index_word (id : string) (idx : list (string * list string)) (word : string)
  : list (string * list string) :=
  let idx1 := match map_get idx word with
              | Some _ => idx
              | None => map_set idx word []
              end in
  match map_get idx1 word with
  | Some ids => if existsb (String.eqb id) ids then idx1 else map_set idx1 word (ids ++ [id])
  | None => idx1
  end.

Definition addNode (e : Engine) (id title html : string) : Engine :=
  let text := trim (collapse_ws (strip_tags html)) in
  let nodes' := map_set (nodes e) id (mkNode id title text html) in
  let words := tokenize text in
  mkEngine (fold_left (index_word id) words (index e)) nodes'.

Record SearchResult := mkResult { score : nat; node : option BibleNode }.

(** One iteration of [matches.forEach] in [search]. *)
Definition count_id (results : list (string * nat)) (id : string) : list (string * nat) :=
  map_set results id (match map_get results id with Some n => n | None => 0 end + 1)%nat.

(** [Array.prototype.sort] with [(a, b) => b[1] - a[1]]: a stable sort by
    descending score, as insertion sort. *)
Fixpoint insert_desc (x : string * nat) (l : list (string * nat)) : list (string * nat) :=
  match l with
  | [] => [x]
  | y :: r => if (snd y <? snd x)%nat then x :: l else y :: insert_desc x r
  end.

Definition sort_desc (l : list (string * nat)) : list (string * nat) :=
  fold_left (fun acc x => insert_desc x acc) l [].

Definition search (e : Engine) (query : string) : list SearchResult :=
  let tokens := tokenize query in
  match tokens with
  | [] => []
  | _ =>
      let results :=
        fold_left (fun res token =>
                     let matches := match map_get (index e) token with
                                    | Some ids => ids
                                    | None => []
                                    end in
                     fold_left count_id matches res) tokens [] in
      map (fun '(id, sc) => mkResult sc (map_get (nodes e) id)) (sort_desc results)
  end.

(** [getStats]: [{ totalNodes: nodes.size, totalTerms: index.size }]. *)
Definition getStats (e : Engine) : nat * nat :=
  (List.length (nodes e), List.length (index e)).

End Search.


(** * Auxiliary definitions and sample inputs *)

Module CryptoDefs.
Import Crypto.

Definition masterKeyHex : string :=
  "11cbb5587e32846d4c26790c633da289f66fe5842a3a585ce1bc3a294af5ada7".

Definition masterKey : list Z := hexToBytes masterKeyHex.

Fixpoint all_hex (s : string) : bool :=
  match s with
  | EmptyString => true
  | String c r => is_hex c && all_hex r
  end.

End CryptoDefs.

Module DiscoveryDefs.
Import Discovery.

Definition key (y m : Z) : Z := y * 12 + m.

Definition triple (d : DiscoveredPublication) : string * string * string :=
  (pub d, issue d, language d).

Definition Inv (p l : string) (st : State) : Prop :=
  1 <= currentMonth st <= 12 /\
  NoDup (map triple (discovered st)) /\
  Forall (fun d => pub d = p /\ language d = l /\
            exists y m, 1 <= m <= 12 /\
              key y m < key (currentYear st) (currentMonth st) /\ issue d = issueDate y m)
         (discovered st).

Definition InvLe (p l : string) (st : State) : Prop :=
  1 <= currentMonth st <= 12 /\
  NoDup (map triple (discovered st)) /\
  Forall (fun d => pub d = p /\ language d = l /\
            exists y m, 1 <= m <= 12 /\
              key y m <= key (currentYear st) (currentMonth st) /\ issue d = issueDate y m)
         (discovered st).

Definition sample_langData : LangData :=
  mkLangData (Some [mkLangMedia (Some "https://cdn/mwb_S_202511.jwpub"%string) None]) None.

Definition sample_responses : list Response :=
  [Resp 200 (BodyJson (Some [("S"%string, sample_langData)]));
   Resp 200 (BodyJson None);
   Resp 200 (BodyJson (Some [("S"%string, sample_langData)]));
   Resp 404 BodyThrows].

Definition ym_key (ym : Z * Z) : Z := key (fst ym) (snd ym).

(** The order of the discovered issues: [ms] lists their (year, month)
    pairs, each at or after the start key [k0], related to the current key
    by [rel], odd for [mwb], and strictly increasing. *)
Definition InvOrd_rel (rel : Z -> Z -> Prop) (p : string) (k0 : Z) (st : State) : Prop :=
  1 <= currentMonth st <= 12 /\
  (String.eqb p "mwb" = true -> Z.odd (currentMonth st) = true) /\
  k0 <= key (currentYear st) (currentMonth st) /\
  exists ms : list (Z * Z),
    map issue (discovered st) = map (fun ym => issueDate (fst ym) (snd ym)) ms /\
    Forall (fun ym => 1 <= snd ym <= 12 /\
                      (String.eqb p "mwb" = true -> Z.odd (snd ym) = true) /\
                      k0 <= ym_key ym /\
                      rel (ym_key ym) (key (currentYear st) (currentMonth st))) ms /\
    StronglySorted (fun a b => ym_key a < ym_key b) ms.

End DiscoveryDefs.

Module ParsingDefs.
Import Parsing.

Section NodeInd.
Variable P : node -> Prop.
Hypothesis HText : forall s, P (Text s).
Hypothesis HElement : forall t a cl ch, Forall P ch -> P (Element t a cl ch).

Fixpoint node_ind' (n : node) : P n :=
  match n with
  | Text s => HText s
  | Element t a cl ch =>
      HElement t a cl ch
        ((fix go (l : list node) : Forall P l :=
            match l with
            | [] => Forall_nil P
            | x :: r => Forall_cons x (node_ind' x) (go r)
            end) ch)
  end.
End NodeInd.

Definition sample_img : node :=
  Element "img" [("src", "jwpub-media://x/y/z.jpg"); ("width", "640"); ("alt", "map")]%string
          [] [].

Definition sample_doc : list node :=
  [Element "div" [] [] [Element "p" [] [] [Text "Intro"%string]; sample_img]].

Definition bare_img : node := Element "img" [("alt", "logo")]%string [] [].

Definition video_anchor_doc : list node :=
  [Element "a" [("data-video", "webpubvid://v")]%string []
           [Text "Clip"%string]].

Definition srcless_doc : list node := [Element "img" [] [] []].

(** A tree with the attributes and classes of its [<img>] elements erased:
    what [parseDocument]'s rewriting is not allowed to touch. *)
Fixpoint erase_img (n : node) : node :=
  match n with
  | Text s => Text s
  | Element t a cl ch =>
      if String.eqb (to_lower t) "img"
      then Element t [] [] (map erase_img ch)
      else Element t a cl (map erase_img ch)
  end.

End ParsingDefs.

Module SearchDefs.
Import Search.

Definition love_engine : Engine :=
  addNode (addNode empty_engine "1" "t" "<p>love and love</p>") "2" "t2" "<p>love</p>".

Definition love_node1 : BibleNode := mkNode "1" "t" "love and love" "<p>love and love</p>".
Definition love_node2 : BibleNode := mkNode "2" "t2" "love" "<p>love</p>".

(** The posting list of a word: [index.get(word) || []]. *)
Definition posting (e : Engine) (w : string) : list string :=
  match map_get (index e) w with Some ids => ids | None => [] end.

(** How many of the tokens [ts] (with repetitions) list the document [id]. *)
Definition hits (e : Engine) (ts : list string) (id : string) : nat :=
  List.length (filter (fun t => existsb (String.eqb id) (posting e t)) ts).

(** The engine after [addNode] of each [(id, title, html)] in turn. *)
Definition build (docs : list (string * string * string)) : Engine :=
  fold_left (fun e '(id, title, html) => addNode e id title html) docs empty_engine.

(** What every engine built by [addNode] keeps: distinct words and ids as
    map keys, posting lists without repetition, and every listed id stored
    as a node under its own id. *)
Definition engine_ok (e : Engine) : Prop :=
  NoDup (map fst (index e)) /\ NoDup (map fst (nodes e)) /\
  (forall w, NoDup (posting e w)) /\
  (forall w x, In x (posting e w) ->
     exists n, map_get (nodes e) x = Some n /\ node_id n = x).

(** The plain text [addNode] stores for an html. *)
Definition html_text (html : string) : string := trim (collapse_ws (strip_tags html)).

End SearchDefs.

(** * Proofs *)

Module CryptoFacts.
Import Crypto CryptoDefs.

Lemma atob_masterKey : atob masterKeyBase64 = Some masterKeyHex.
Proof. vm_compute. reflexivity. Qed.

Lemma masterKey_eq : masterKey =
  [17; 203; 181; 88; 126; 50; 132; 109; 76; 38; 121; 12; 99; 61; 162; 137;
   246; 111; 229; 132; 42; 58; 88; 92; 225; 188; 58; 41; 74; 245; 173; 167].
Proof. vm_compute. reflexivity. Qed.

Lemma masterKey_length : List.length masterKey = 32%nat.
Proof. rewrite masterKey_eq. reflexivity. Qed.

Lemma masterKey_bytes : Forall (fun b => 0 <= b < 256) masterKey.
Proof. rewrite masterKey_eq. repeat constructor; discriminate. Qed.

Lemma xor_at_masterKey i b :
  xor_at masterKey i b = Z.lxor b (nth (i mod 32) masterKey 0) mod 256.
Proof. rewrite masterKey_eq. reflexivity. Qed.

Lemma getDeriveKeyAndIv_eq generateSHA256 pubCard :
  getDeriveKeyAndIv generateSHA256 pubCard =
  let full := bytesToHex (xorBuffers (generateSHA256 (TextEncoder_encode pubCard))
                                     masterKey) in
  Some (substring 0 32 full, substring 32 32 full).
Proof.
  unfold getDeriveKeyAndIv. rewrite atob_masterKey. unfold masterKey. reflexivity.
Qed.

Lemma map_from_length {A B} (f : nat -> A -> B) i l :
  List.length (map_from f i l) = List.length l.
Proof. revert i; induction l; simpl; auto. Qed.

Lemma nth_map_from {A B} (f : nat -> A -> B) i l k (a : A) (b : B) :
  (k < List.length l)%nat -> nth k (map_from f i l) b = f (i + k)%nat (nth k l a).
Proof.
  revert i k; induction l as [|x l IH]; intros i k Hk; simpl in *; [lia|].
  destruct k; [f_equal; lia|].
  rewrite IH by lia. f_equal. lia.
Qed.

Lemma lxor_byte a b : 0 <= a < 256 -> 0 <= b < 256 -> 0 <= Z.lxor a b < 256.
Proof.
  intros Ha Hb. split; [apply Z.lxor_nonneg; lia|].
  destruct (Z.eq_dec (Z.lxor a b) 0) as [->|Hn]; [lia|].
  assert (0 < Z.lxor a b) by (pose proof (proj2 (Z.lxor_nonneg a b)); lia).
  apply (Z.log2_lt_pow2 _ 8); [assumption|].
  pose proof (Z.log2_lxor a b ltac:(lia) ltac:(lia)).
  assert (Z.log2 a <= Z.log2 255) by (apply Z.log2_le_mono; lia).
  assert (Z.log2 b <= Z.log2 255) by (apply Z.log2_le_mono; lia).
  change (Z.log2 255) with 7 in *. lia.
Qed.

Lemma all_hex_app s1 s2 : all_hex (s1 ++ s2) = all_hex s1 && all_hex s2.
Proof. induction s1; simpl; [reflexivity|]. rewrite IHs1. apply andb_assoc. Qed.

Lemma all_hex_substring n m s : all_hex s = true -> all_hex (substring n m s) = true.
Proof.
  revert n m; induction s as [|c s IH]; intros n m H; destruct n, m; simpl in *; auto.
  apply andb_true_iff in H as [H1 H2]. rewrite H1. simpl. apply IH; auto.
  apply andb_true_iff in H as [H1 H2]. apply IH; auto.
  apply andb_true_iff in H as [H1 H2]. apply IH; auto.
Qed.

Lemma hex_digit_hex n : 0 <= n < 16 -> is_hex (hex_digit n) = true.
Proof.
  intros H.
  assert (Hall : Forall (fun k => is_hex (hex_digit k) = true) (map Z.of_nat (seq 0 16)))
    by (simpl; repeat constructor).
  rewrite Forall_forall in Hall. apply Hall, in_map_iff.
  exists (Z.to_nat n). split; [lia|]. apply in_seq. lia.
Qed.

Lemma byte_hex_length b : String.length (padStart2 (toString16 b)) = 2%nat.
Proof. unfold padStart2, toString16. destruct (b <? 16); reflexivity. Qed.

Lemma byte_hex_all_hex b : 0 <= b < 256 -> all_hex (padStart2 (toString16 b)) = true.
Proof.
  intros Hb. unfold padStart2, toString16.
  destruct (b <? 16) eqn:E; simpl.
  - rewrite hex_digit_hex by lia. reflexivity.
  - rewrite !hex_digit_hex; [reflexivity| |].
    + split; [apply Z.mod_pos_bound | apply Z.mod_pos_bound]; lia.
    + split; [apply Z.div_pos; lia| apply Z.div_lt_upper_bound; lia].
Qed.

Lemma string_app_length s1 s2 :
  String.length (s1 ++ s2) = (String.length s1 + String.length s2)%nat.
Proof. induction s1; simpl; auto. Qed.

Lemma bytesToHex_length l : String.length (bytesToHex l) = (2 * List.length l)%nat.
Proof.
  induction l as [|b l IH]; simpl; [reflexivity|].
  rewrite string_app_length, byte_hex_length, IH. lia.
Qed.

Lemma bytesToHex_all_hex l :
  Forall (fun b => 0 <= b < 256) l -> all_hex (bytesToHex l) = true.
Proof.
  induction 1; simpl; [reflexivity|].
  rewrite all_hex_app, byte_hex_all_hex, IHForall by assumption. reflexivity.
Qed.

Lemma substring_length n m s :
  (n + m <= String.length s)%nat -> String.length (substring n m s) = m.
Proof.
  revert n m; induction s as [|c s IH]; intros n m H; destruct n, m; simpl in *;
    try lia; auto.
  rewrite IH by lia. reflexivity.
  apply IH. lia.
  apply IH. lia.
Qed.

Lemma substring_0_all s : substring 0 (String.length s) s = s.
Proof. induction s; simpl; [reflexivity|]. rewrite IHs. reflexivity. Qed.

Lemma substring_split n s :
  (n <= String.length s)%nat ->
  (substring 0 n s ++ substring n (String.length s - n) s)%string = s.
Proof.
  revert s; induction n as [|n IH]; intros s H; simpl.
  - rewrite Nat.sub_0_r, substring_0_all. destruct s; reflexivity.
  - destruct s as [|c s]; simpl in *; [lia|].
    rewrite IH by lia. reflexivity.
Qed.

Lemma hex_pairs_length l : List.length (hex_pairs l) = (List.length l / 2)%nat.
Proof.
  assert (forall k l, (List.length l <= k)%nat ->
            List.length (hex_pairs l) = (List.length l / 2)%nat) as G.
  { induction k as [|k IH]; intros l' Hl.
    - destruct l'; simpl in *; [reflexivity|lia].
    - destruct l' as [|a [|b r]]; cbn [hex_pairs List.length] in *; try reflexivity.
      rewrite IH by lia.
      replace (S (S (List.length r))) with (List.length r + 1 * 2)%nat by lia.
      rewrite Nat.div_add by lia. lia. }
  apply G with (k := List.length l). lia.
Qed.

Lemma filter_all_hex s :
  all_hex s = true -> filter is_hex (list_ascii_of_string s) = list_ascii_of_string s.
Proof.
  induction s as [|c s IH]; simpl; intros H; [reflexivity|].
  apply andb_true_iff in H as [H1 H2]. rewrite H1, IH by assumption. reflexivity.
Qed.

Lemma list_ascii_length s : List.length (list_ascii_of_string s) = String.length s.
Proof. induction s; simpl; auto. Qed.

Lemma hexToBytes_length s :
  all_hex s = true -> List.length (hexToBytes s) = (String.length s / 2)%nat.
Proof.
  intros H. unfold hexToBytes. rewrite filter_all_hex by assumption.
  rewrite hex_pairs_length, list_ascii_length. reflexivity.
Qed.

Lemma xor_at_byte buf2 i b : 0 <= xor_at buf2 i b < 256.
Proof. unfold xor_at. destruct buf2; apply Z.mod_pos_bound; lia. Qed.

Lemma map_from_xor_bytes buf2 i l :
  Forall (fun b => 0 <= b < 256) (map_from (xor_at buf2) i l).
Proof. revert i; induction l; simpl; constructor; auto using xor_at_byte. Qed.

End CryptoFacts.

Module CryptoClaims.
Import Crypto CryptoFacts CryptoDefs.

(** C1: for every pubCard whose SHA-256 digest is 32 bytes, [getDeriveKeyAndIv]
    returns a key and an IV of 32 hex characters (16 bytes) each; they are the
    two halves of the hex rendering of the digest XORed byte for byte (cyclic
    index [i mod 32]) with the master key, which is the hex decoding of the
    base64 decoding of the embedded constant and is 32 bytes long. *)
Theorem getDeriveKeyAndIv_spec (generateSHA256 : list Z -> list Z) (pubCard : string)
  (Hlen : List.length (generateSHA256 (TextEncoder_encode pubCard)) = 32%nat)
  (Hbytes : Forall (fun b => 0 <= b < 256) (generateSHA256 (TextEncoder_encode pubCard))) :
  let hash := generateSHA256 (TextEncoder_encode pubCard) in
  let xored := xorBuffers hash masterKey in
  atob masterKeyBase64 = Some masterKeyHex /\
  masterKey = hexToBytes masterKeyHex /\
  List.length masterKey = 32%nat /\
  List.length xored = 32%nat /\
  (forall i, (i < 32)%nat ->
     nth i xored 0 = Z.lxor (nth i hash 0) (nth (i mod 32) masterKey 0)) /\
  exists key iv,
    getDeriveKeyAndIv generateSHA256 pubCard = Some (key, iv) /\
    String.length key = 32%nat /\ String.length iv = 32%nat /\
    List.length (hexToBytes key) = 16%nat /\ List.length (hexToBytes iv) = 16%nat /\
    (key ++ iv)%string = bytesToHex xored.
Proof.
  intros hash xored.
  assert (Hx : List.length xored = 32%nat)
    by (unfold xored, xorBuffers; rewrite map_from_length; exact Hlen).
  assert (Hfull : String.length (bytesToHex xored) = 64%nat)
    by (rewrite bytesToHex_length, Hx; reflexivity).
  assert (Hhex : all_hex (bytesToHex xored) = true)
    by (apply bytesToHex_all_hex; apply map_from_xor_bytes).
  split; [exact atob_masterKey|].
  split; [reflexivity|].
  split; [exact masterKey_length|].
  split; [exact Hx|].
  split.
  - intros i Hi. unfold xored, xorBuffers.
    rewrite (nth_map_from _ _ _ _ 0 0) by (unfold hash; lia).
    rewrite Nat.add_0_l, xor_at_masterKey. apply Z.mod_small. apply lxor_byte.
    + rewrite Forall_forall in Hbytes. apply Hbytes, nth_In. unfold hash. lia.
    + pose proof masterKey_bytes as Hm. rewrite Forall_forall in Hm.
      apply Hm, nth_In. rewrite masterKey_length. apply Nat.mod_upper_bound. lia.
  - rewrite getDeriveKeyAndIv_eq. fold hash. fold xored.
    eexists; eexists; split; [reflexivity|].
    assert (Hk : String.length (substring 0 32 (bytesToHex xored)) = 32%nat)
      by (apply substring_length; lia).
    assert (Hv : String.length (substring 32 32 (bytesToHex xored)) = 32%nat)
      by (apply substring_length; lia).
    repeat split; try assumption.
    + rewrite hexToBytes_length, Hk by (apply all_hex_substring; assumption). reflexivity.
    + rewrite hexToBytes_length, Hv by (apply all_hex_substring; assumption). reflexivity.
    + pose proof (substring_split 32 (bytesToHex xored) ltac:(lia)) as S.
      rewrite Hfull in S. exact S.
Qed.

Lemma getDeriveKeyAndIv_spec_witness :
  List.length (repeat 0 32) = 32%nat /\ Forall (fun b => 0 <= b < 256) (repeat 0 32) /\
  let hash := (fun _ : list Z => repeat 0 32) (TextEncoder_encode "1_mwb_2025_100") in
  let xored := xorBuffers hash masterKey in
  atob masterKeyBase64 = Some masterKeyHex /\
  masterKey = hexToBytes masterKeyHex /\
  List.length masterKey = 32%nat /\
  List.length xored = 32%nat /\
  (forall i, (i < 32)%nat ->
     nth i xored 0 = Z.lxor (nth i hash 0) (nth (i mod 32) masterKey 0)) /\
  exists key iv,
    getDeriveKeyAndIv (fun _ => repeat 0 32) "1_mwb_2025_100" = Some (key, iv) /\
    String.length key = 32%nat /\ String.length iv = 32%nat /\
    List.length (hexToBytes key) = 16%nat /\ List.length (hexToBytes iv) = 16%nat /\
    (key ++ iv)%string = bytesToHex xored.
Proof.
  split; [reflexivity|]. split; [repeat constructor; lia|].
  apply (getDeriveKeyAndIv_spec (fun _ => repeat 0 32) "1_mwb_2025_100");
    [reflexivity | repeat constructor; lia].
Defined.



End CryptoClaims.

Module DiscoveryFacts.
Import Discovery DiscoveryDefs.

Lemma advance_spec pub st :
  1 <= currentMonth st <= 12 ->
  let st' := advance pub st in
  1 <= currentMonth st' <= 12 /\
  key (currentYear st) (currentMonth st) < key (currentYear st') (currentMonth st') /\
  notFoundCount st' = notFoundCount st /\ discovered st' = discovered st.
Proof.
  intros Hm. unfold advance, key.
  destruct (String.eqb pub "mwb"); rewrite Z.gtb_ltb;
    match goal with |- context [12 <? ?x] => destruct (Z.ltb_spec 12 x) end;
    simpl; repeat split; lia.
Qed.

Lemma advance_spec_any pub st :
  notFoundCount (advance pub st) = notFoundCount st /\
  discovered (advance pub st) = discovered st.
Proof.
  unfold advance.
  repeat (match goal with |- context [if ?b then _ else _] => destruct b end);
  split; reflexivity.
Qed.

Lemma step_miss pub language st m :
  (m = FetchError \/ (exists b, m = Resp 404 b) \/ (exists s b, s <> 200 /\ m = Resp s b) \/
   m = Resp 200 BodyThrows) ->
  step pub language st m =
  advance pub (mkState (currentYear st) (currentMonth st) (notFoundCount st + 1)
                       (discovered st)).
Proof.
  intros [->|[[b ->]|[[s [b [Hs ->]]]| ->]]]; unfold step; try reflexivity.
  rewrite (proj2 (Z.eqb_neq s 200) Hs). reflexivity.
Qed.

Lemma step_success_count pub language st files :
  notFoundCount (step pub language st (Resp 200 (BodyJson files))) = 0.
Proof.
  unfold step, advance. simpl.
  repeat (match goal with |- context [if ?b then _ else _] => destruct b end);
  reflexivity.
Qed.

Lemma run_successes pub language oks st rest :
  notFoundCount st = 0 ->
  Forall (fun r => exists files, r = Resp 200 (BodyJson files)) oks ->
  run pub language st (oks ++ rest) =
  run pub language (fold_left (step pub language) oks st) rest /\
  notFoundCount (fold_left (step pub language) oks st) = 0.
Proof.
  intros H0 Hoks. revert st H0.
  induction Hoks as [|r oks [files ->] _ IH]; intros st H0; simpl; [auto|].
  rewrite H0. simpl. apply IH. apply step_success_count.
Qed.

Lemma run_stop pub language st rs :
  (notFoundCount st <? maxNotFound) = false -> run pub language st rs = Some (st, rs).
Proof. intros H. destruct rs; simpl; rewrite H; reflexivity. Qed.

(** ** Issue codes are injective *)

Lemma to_int_not_nil z : Z.to_int z <> Decimal.Pos Decimal.Nil /\
                         Z.to_int z <> Decimal.Neg Decimal.Nil.
Proof.
  split; intros H; pose proof (DecimalZ.of_to z) as E; rewrite H in E;
    simpl in E; subst z; discriminate H.
Qed.

Lemma string_of_Z_inj z1 z2 : string_of_Z z1 = string_of_Z z2 -> z1 = z2.
Proof.
  unfold string_of_Z. intros H.
  destruct (to_int_not_nil z1) as [A1 B1], (to_int_not_nil z2) as [A2 B2].
  pose proof (NilZero.isi _ A1 B1) as I1. pose proof (NilZero.isi _ A2 B2) as I2.
  rewrite H, I2 in I1. injection I1 as I1.
  apply DecimalZ.to_int_inj. symmetry. exact I1.
Qed.

Lemma month_cases m : 1 <= m <= 12 ->
  m = 1 \/ m = 2 \/ m = 3 \/ m = 4 \/ m = 5 \/ m = 6 \/ m = 7 \/ m = 8 \/
  m = 9 \/ m = 10 \/ m = 11 \/ m = 12.
Proof. lia. Qed.

Lemma month_string_length m : 1 <= m <= 12 ->
  String.length (padStart2 (string_of_Z m)) = 2%nat.
Proof.
  intros H. destruct (month_cases m H) as [|[|[|[|[|[|[|[|[|[|[|]]]]]]]]]]]; subst;
    reflexivity.
Qed.

Lemma month_string_inj m1 m2 : 1 <= m1 <= 12 -> 1 <= m2 <= 12 ->
  padStart2 (string_of_Z m1) = padStart2 (string_of_Z m2) -> m1 = m2.
Proof.
  intros H1 H2.
  destruct (month_cases m1 H1) as [|[|[|[|[|[|[|[|[|[|[|]]]]]]]]]]]; subst;
  destruct (month_cases m2 H2) as [|[|[|[|[|[|[|[|[|[|[|]]]]]]]]]]]; subst;
  vm_compute; first [reflexivity | discriminate].
Qed.

Lemma str_app_length s1 s2 :
  String.length (s1 ++ s2) = (String.length s1 + String.length s2)%nat.
Proof. induction s1; simpl; auto. Qed.

Lemma string_app_inj s1 s2 t1 t2 :
  (s1 ++ t1 = s2 ++ t2)%string -> String.length t1 = String.length t2 ->
  s1 = s2 /\ t1 = t2.
Proof.
  intros H Ht.
  assert (Hs : String.length s1 = String.length s2)
    by (apply (f_equal String.length) in H; rewrite !str_app_length in H; lia).
  revert s2 H Hs. induction s1 as [|c s1 IH]; intros [|c' s2] H Hs;
    simpl in *; try discriminate; auto.
  injection H as -> H. destruct (IH s2 H) as [-> ->]; auto.
Qed.

Lemma issueDate_inj y1 m1 y2 m2 : 1 <= m1 <= 12 -> 1 <= m2 <= 12 ->
  issueDate y1 m1 = issueDate y2 m2 -> y1 = y2 /\ m1 = m2.
Proof.
  unfold issueDate. intros H1 H2 H.
  apply string_app_inj in H as [Hy Hm];
    [| rewrite !month_string_length by assumption; reflexivity].
  split; [apply string_of_Z_inj; exact Hy | apply month_string_inj; assumption].
Qed.

(** ** The loop invariant of [run] *)

Lemma NoDup_app_single {A} (l : list A) x : NoDup l -> ~ In x l -> NoDup (l ++ [x]).
Proof.
  intros Hl Hx. apply NoDup_app; [exact Hl | constructor; [intros []|constructor] |].
  intros y Hy [<-|[]]. contradiction.
Qed.

Lemma Inv_advance p l st :
  InvLe p l st -> Inv p l (advance p st).
Proof.
  intros (Hm & Hnd & Hf). destruct (advance_spec p st Hm) as (Hm' & Hk & _ & Hd).
  split; [exact Hm'|]. rewrite Hd. split; [exact Hnd|].
  eapply Forall_impl; [|exact Hf]. simpl.
  intros d (? & ? & y & m & ? & ? & ?). repeat split; auto.
  exists y, m. repeat split; auto; lia.
Qed.

Lemma Inv_step p l st r : Inv p l st -> Inv p l (step p l st r).
Proof.
  intros HI. unfold step. apply Inv_advance.
  destruct HI as (Hm & Hnd & Hf).
  assert (Hf' : Forall (fun d => pub d = p /\ language d = l /\
            exists y m, 1 <= m <= 12 /\
              key y m <= key (currentYear st) (currentMonth st) /\ issue d = issueDate y m)
         (discovered st)).
  { eapply Forall_impl; [|exact Hf]. intros d (? & ? & y & m & ? & ? & ?).
    repeat split; auto. exists y, m. repeat split; auto; lia. }
  assert (Hmiss : InvLe p l (mkState (currentYear st) (currentMonth st)
                                     (notFoundCount st + 1) (discovered st)))
    by (unfold InvLe; simpl; auto).
  destruct r as [status body|]; [|exact Hmiss].
  destruct (status =? 200); [|exact Hmiss].
  destruct body as [|files]; [exact Hmiss|].
  destruct (langData_of files l) as [ld|]; [|unfold InvLe; simpl; auto].
  unfold InvLe; simpl. split; [exact Hm|]. split.
  - rewrite map_app. apply NoDup_app_single.
    + exact Hnd.
    + intros Hin. apply in_map_iff in Hin as (d & Hd & Hin).
      rewrite Forall_forall in Hf. destruct (Hf d Hin) as (_ & _ & y & m & Hym & Hk & Hi).
      unfold triple in Hd. simpl in Hd. injection Hd as _ Hi' _.
      rewrite Hi in Hi'. apply issueDate_inj in Hi' as [-> ->]; auto. lia.
  - apply Forall_app. split; [exact Hf'|]. constructor; [|constructor].
    repeat split; auto. exists (currentYear st), (currentMonth st). repeat split; auto; lia.
Qed.

Lemma Inv_run p l st rs st' rest :
  Inv p l st -> run p l st rs = Some (st', rest) -> Inv p l st'.
Proof.
  revert st. induction rs as [|r rs IH]; intros st HI Hr; simpl in Hr.
  - destruct (_ <? _); [discriminate|]. injection Hr as <- _. exact HI.
  - destruct (_ <? _); [|injection Hr as <- _; exact HI].
    apply (IH _ (Inv_step p l st r HI) Hr).
Qed.

Lemma Inv_init p l nowGetMonth : 0 <= nowGetMonth <= 11 -> Inv p l (init p nowGetMonth).
Proof.
  intros H. unfold Inv, init; simpl. split; [|split; constructor].
  destruct (String.eqb p "mwb"); [|lia].
  destruct ((nowGetMonth + 1) mod 2 =? 0) eqn:E; [|lia].
  apply Z.eqb_eq in E.
  assert (nowGetMonth <> 0) by (intros ->; discriminate E). lia.
Qed.

End DiscoveryFacts.

Module DiscoveryClaims.
Import Discovery DiscoveryFacts DiscoveryDefs.

(** C3: with the threshold [maxNotFound = 1], whatever the outcomes, [discover]
    fetches through a run of successful (status 200, readable JSON) responses,
    then stops right after the first non-success outcome (a 404, another
    status, or a rejected [fetch]), which adds one to the miss counter and never
    resets it; it returns what was collected before that miss and leaves the
    later outcomes unfetched. *)
Theorem discover_stops_after_first_miss (p l : string) (nowGetMonth : Z)
  (oks : list Response) (m : Response) (rest : list Response)
  (Hoks : Forall (fun r => exists files, r = Resp 200 (BodyJson files)) oks)
  (Hm : m = FetchError \/ (exists b, m = Resp 404 b) \/
        (exists s b, s <> 200 /\ m = Resp s b)) :
  maxNotFound = 1 /\
  (forall st, notFoundCount (step p l st m) = notFoundCount st + 1 /\
              discovered (step p l st m) = discovered st) /\
  discover p l nowGetMonth (oks ++ m :: rest) =
    Some (discovered (fold_left (step p l) oks (init p nowGetMonth)), rest).
Proof.
  assert (Hstep : forall st, notFoundCount (step p l st m) = notFoundCount st + 1 /\
                             discovered (step p l st m) = discovered st).
  { intros st. rewrite step_miss by tauto.
    destruct (advance_spec_any p (mkState (currentYear st) (currentMonth st)
                                          (notFoundCount st + 1) (discovered st)))
      as [-> ->].
    split; reflexivity. }
  split; [reflexivity|]. split; [exact Hstep|].
  unfold discover.
  destruct (run_successes p l oks (init p nowGetMonth) (m :: rest) eq_refl Hoks)
    as [-> H0].
  simpl. rewrite H0. simpl.
  destruct (Hstep (fold_left (step p l) oks (init p nowGetMonth))) as [Hc Hd].
  rewrite run_stop by (rewrite Hc, H0; reflexivity).
  rewrite Hd. reflexivity.
Qed.

Lemma discover_stops_after_first_miss_witness :
  Forall (fun r => exists files, r = Resp 200 (BodyJson files))
         [Resp 200 (BodyJson None)] /\
  (Resp 404 BodyThrows = FetchError \/ (exists b, Resp 404 BodyThrows = Resp 404 b) \/
   (exists s b, s <> 200 /\ Resp 404 BodyThrows = Resp s b)) /\
  (maxNotFound = 1 /\
   (forall st, notFoundCount (step "w" "S" st (Resp 404 BodyThrows)) = notFoundCount st + 1 /\
               discovered (step "w" "S" st (Resp 404 BodyThrows)) = discovered st) /\
   discover "w" "S" 3 ([Resp 200 (BodyJson None)] ++ Resp 404 BodyThrows :: [FetchError]) =
     Some (discovered (fold_left (step "w" "S") [Resp 200 (BodyJson None)] (init "w" 3)),
           [FetchError])).
Proof.
  assert (Hoks : Forall (fun r => exists files, r = Resp 200 (BodyJson files))
                        [Resp 200 (BodyJson None)])
    by (constructor; [eexists; reflexivity | constructor]).
  assert (Hm : Resp 404 BodyThrows = FetchError \/
               (exists b, Resp 404 BodyThrows = Resp 404 b) \/
               (exists s b, s <> 200 /\ Resp 404 BodyThrows = Resp s b))
    by (right; left; eexists; reflexivity).
  split; [exact Hoks|]. split; [exact Hm|].
  exact (discover_stops_after_first_miss "w" "S" 3 _ _ [FetchError] Hoks Hm).
Defined.

(** C7: for every start month and every sequence of outcomes, the list that
    [discover] returns has no two entries with the same (pub, issue, language). *)
Theorem discover_no_duplicate_triples (p l : string) (nowGetMonth : Z)
  (rs : list Response) (res : list DiscoveredPublication) (rest : list Response)
  (Hmonth : 0 <= nowGetMonth <= 11)
  (Hrun : discover p l nowGetMonth rs = Some (res, rest)) :
  NoDup (map (fun d => (pub d, issue d, language d)) res).
Proof.
  unfold discover in Hrun.
  destruct (run p l (init p nowGetMonth) rs) as [[st rest']|] eqn:E; [|discriminate].
  injection Hrun as <- _.
  destruct (Inv_run p l _ _ _ _ (Inv_init p l nowGetMonth Hmonth) E) as (_ & Hnd & _).
  exact Hnd.
Qed.

Lemma discover_no_duplicate_triples_witness :
  exists res rest,
    (0 <= 10 <= 11) /\
    discover "mwb" "S" 10 sample_responses = Some (res, rest) /\
    NoDup (map (fun d => (pub d, issue d, language d)) res).
Proof.
  assert (H : 0 <= 10 <= 11) by lia.
  eexists; eexists. split; [exact H|]. split; [reflexivity|].
  eapply (discover_no_duplicate_triples "mwb" "S" 10 sample_responses _ _ H).
  reflexivity.
Defined.

(** C9: a 200 response whose JSON [files] object has no entry for the requested
    language emits nothing, yet resets the miss counter to zero and moves on to
    the next issue: the loop goes on as after a success. *)
Theorem discover_200_without_language_resets (p l : string) (st : State)
  (files : option (list (string * LangData))) (rest : list Response)
  (Hnone : langData_of files l = None)
  (Hgo : notFoundCount st < maxNotFound) :
  let st' := advance p (mkState (currentYear st) (currentMonth st) 0 (discovered st)) in
  step p l st (Resp 200 (BodyJson files)) = st' /\
  discovered st' = discovered st /\
  notFoundCount st' = 0 /\
  run p l st (Resp 200 (BodyJson files) :: rest) = run p l st' rest.
Proof.
  intros st'.
  assert (Hs : step p l st (Resp 200 (BodyJson files)) = st')
    by (unfold step; simpl; rewrite Hnone; reflexivity).
  destruct (advance_spec_any p (mkState (currentYear st) (currentMonth st) 0
                                        (discovered st))) as [Hc Hd].
  repeat split; [exact Hs | exact Hd | exact Hc |].
  simpl. rewrite (proj2 (Z.ltb_lt _ _) Hgo). rewrite Hs. reflexivity.
Qed.

Lemma discover_200_without_language_resets_witness :
  langData_of (Some [("E"%string, sample_langData)]) "S" = None /\
  notFoundCount (init "w" 3) < maxNotFound /\
  let st := init "w" 3 in
  let st' := advance "w" (mkState (currentYear st) (currentMonth st) 0 (discovered st)) in
  step "w" "S" st (Resp 200 (BodyJson (Some [("E"%string, sample_langData)]))) = st' /\
  discovered st' = discovered st /\
  notFoundCount st' = 0 /\
  run "w" "S" st (Resp 200 (BodyJson (Some [("E"%string, sample_langData)])) :: [FetchError])
    = run "w" "S" st' [FetchError].
Proof.
  assert (H1 : langData_of (Some [("E"%string, sample_langData)]) "S" = None)
    by reflexivity.
  assert (H2 : notFoundCount (init "w" 3) < maxNotFound) by (vm_compute; reflexivity).
  split; [exact H1|]. split; [exact H2|].
  exact (discover_200_without_language_resets "w" "S" (init "w" 3) _ [FetchError] H1 H2).
Defined.

End DiscoveryClaims.

Module ParsingFacts.
Import Parsing ParsingDefs.

Lemma has_tag_rewrite t n : has_tag t (rewrite_tree n) = has_tag t n.
Proof.
  destruct n as [s|tg a cl ch]; simpl; [reflexivity|].
  destruct (String.eqb (to_lower tg) "img"); reflexivity.
Qed.

Lemma descendants_rewrite n :
  descendants (rewrite_tree n) = map rewrite_tree (descendants n).
Proof.
  induction n as [s|t a cl ch IH] using node_ind'; [reflexivity|].
  assert (Hch : flat_map descendants (map rewrite_tree ch) =
                map rewrite_tree (flat_map descendants ch)).
  { induction IH as [|x l Hx _ IHl]; [reflexivity|].
    simpl. rewrite Hx, IHl, map_app. reflexivity. }
  simpl. destruct (String.eqb (to_lower t) "img"); simpl; rewrite Hch; reflexivity.
Qed.

Lemma flat_map_descendants_rewrite doc :
  flat_map descendants (map rewrite_tree doc) = map rewrite_tree (flat_map descendants doc).
Proof.
  induction doc as [|x l IH]; [reflexivity|].
  simpl. rewrite descendants_rewrite, IH, map_app. reflexivity.
Qed.

Lemma querySelectorAll_rewrite t doc :
  querySelectorAll t (map rewrite_tree doc) = map rewrite_tree (querySelectorAll t doc).
Proof.
  unfold querySelectorAll. rewrite flat_map_descendants_rewrite.
  induction (flat_map descendants doc) as [|x l IH]; [reflexivity|].
  simpl. rewrite has_tag_rewrite. destruct (has_tag t x); simpl; rewrite IH; reflexivity.
Qed.

Lemma img_in_output doc docId t attrs cl ch :
  In (Element t attrs cl ch) (querySelectorAll "img" doc) ->
  In (Element t (rewrite_img_attrs attrs) (classList_add "jw-image" cl)
              (map rewrite_tree ch))
     (querySelectorAll "img" (html (parseDocument doc docId))) /\
  In (img_asset (Element t attrs cl ch)) (assets (parseDocument doc docId)).
Proof.
  intros Hin. split.
  - assert (Ht : String.eqb (to_lower t) "img" = true)
      by (unfold querySelectorAll in Hin; apply filter_In in Hin as [_ H]; exact H).
    simpl. rewrite querySelectorAll_rewrite.
    replace (Element t (rewrite_img_attrs attrs) (classList_add "jw-image" cl)
                     (map rewrite_tree ch))
      with (rewrite_tree (Element t attrs cl ch)) by (simpl; rewrite Ht; reflexivity).
    apply in_map. exact Hin.
  - simpl. apply in_or_app. left. apply in_map. exact Hin.
Qed.

(** ** Attributes *)

Lemma getAttribute_remove_same k a : getAttribute (removeAttribute k a) k = None.
Proof.
  unfold getAttribute, removeAttribute.
  induction a as [|[k0 v0] r IH]; simpl; [reflexivity|].
  destruct (String.eqb k0 k) eqn:E; simpl; [exact IH|].
  rewrite E. exact IH.
Qed.

Lemma getAttribute_remove_other k k' a :
  k <> k' -> getAttribute (removeAttribute k' a) k = getAttribute a k.
Proof.
  intros Hk. unfold getAttribute, removeAttribute.
  induction a as [|[k0 v0] r IH]; simpl; [reflexivity|].
  destruct (String.eqb k0 k') eqn:E; simpl.
  - apply String.eqb_eq in E. subst k0.
    rewrite (proj2 (String.eqb_neq k' k)) by congruence. exact IH.
  - destruct (String.eqb k0 k); [reflexivity|exact IH].
Qed.

Lemma getAttribute_set k v a : getAttribute (setAttribute k v a) k = Some v.
Proof.
  unfold getAttribute, setAttribute.
  destruct (existsb (fun kv => String.eqb (fst kv) k) a) eqn:Ex.
  - induction a as [|[k0 v0] r IH]; simpl in *; [discriminate|].
    destruct (String.eqb k0 k) eqn:E; simpl.
    + rewrite String.eqb_refl. reflexivity.
    + rewrite E. apply IH. exact Ex.
  - induction a as [|[k0 v0] r IH]; simpl in *.
    + rewrite String.eqb_refl. reflexivity.
    + apply orb_false_iff in Ex as [E Ex]. rewrite E. apply IH. exact Ex.
Qed.

Lemma rewrite_img_attrs_get attrs :
  getAttribute (rewrite_img_attrs attrs) "src" =
    Some ("./assets/" ++ img_fileName (img_src attrs))%string /\
  getAttribute (rewrite_img_attrs attrs) "width" = None /\
  getAttribute (rewrite_img_attrs attrs) "height" = None.
Proof.
  unfold rewrite_img_attrs. split; [|split].
  - rewrite !getAttribute_remove_other by discriminate. apply getAttribute_set.
  - rewrite getAttribute_remove_other by discriminate. apply getAttribute_remove_same.
  - apply getAttribute_remove_same.
Qed.

Lemma rewrite_tree_img t a cl ch :
  rewrite_tree (Element t a cl ch) =
  if String.eqb (to_lower t) "img"
  then Element t (rewrite_img_attrs a) (classList_add "jw-image" cl) (map rewrite_tree ch)
  else Element t a cl (map rewrite_tree ch).
Proof. reflexivity. Qed.

End ParsingFacts.

Module ParsingClaims.
Import Parsing ParsingFacts ParsingDefs.

(** C5: every [<img>] of the input whose [src] is ["jwpub-media://x/y/z.jpg"]
    appears in the returned html with [src] ["./assets/z.jpg"] and without
    [width] and [height], and the asset list has the entry [z.jpg] with the
    element's [alt] as alt text and kind image. *)
Theorem parseDocument_rewrites_jwpub_media_img (doc : list node) (docId : string)
  (t : string) (attrs : list (string * string)) (cl : list string) (ch : list node)
  (Hin : In (Element t attrs cl ch) (querySelectorAll "img" doc))
  (Hsrc : getAttribute attrs "src" = Some "jwpub-media://x/y/z.jpg"%string) :
  let out := parseDocument doc docId in
  (exists attrs',
     In (Element t attrs' (classList_add "jw-image" cl) (map rewrite_tree ch))
        (querySelectorAll "img" (html out)) /\
     getAttribute attrs' "src" = Some "./assets/z.jpg"%string /\
     getAttribute attrs' "width" = None /\
     getAttribute attrs' "height" = None) /\
  In (mkAsset "z.jpg" (opt_str (getAttribute attrs "alt")) Image) (assets out).
Proof.
  intros out. destruct (img_in_output doc docId t attrs cl ch Hin) as [H1 H2].
  assert (Hf : img_fileName (img_src attrs) = "z.jpg"%string)
    by (unfold img_src; rewrite Hsrc; reflexivity).
  split.
  - exists (rewrite_img_attrs attrs). split; [exact H1|].
    destruct (rewrite_img_attrs_get attrs) as (Hs & Hw & Hh).
    rewrite Hs, Hf. auto.
  - unfold img_asset in H2. simpl attrs_of in H2. rewrite Hf in H2. exact H2.
Qed.

Lemma parseDocument_rewrites_jwpub_media_img_witness :
  In sample_img (querySelectorAll "img" sample_doc) /\
  getAttribute [("src", "jwpub-media://x/y/z.jpg"); ("width", "640"); ("alt", "map")]%string
               "src" = Some "jwpub-media://x/y/z.jpg"%string /\
  let out := parseDocument sample_doc "d1" in
  (exists attrs',
     In (Element "img" attrs' (classList_add "jw-image" []) (map rewrite_tree []))
        (querySelectorAll "img" (html out)) /\
     getAttribute attrs' "src" = Some "./assets/z.jpg"%string /\
     getAttribute attrs' "width" = None /\
     getAttribute attrs' "height" = None) /\
  In (mkAsset "z.jpg"
        (opt_str (getAttribute [("src", "jwpub-media://x/y/z.jpg"); ("width", "640");
                                ("alt", "map")]%string "alt")) Image) (assets out).
Proof.
  assert (H1 : In sample_img (querySelectorAll "img" sample_doc))
    by (simpl; auto).
  assert (H2 : getAttribute [("src", "jwpub-media://x/y/z.jpg"); ("width", "640");
                             ("alt", "map")]%string "src"
               = Some "jwpub-media://x/y/z.jpg"%string) by reflexivity.
  split; [exact H1|]. split; [exact H2|].
  exact (parseDocument_rewrites_jwpub_media_img sample_doc "d1" _ _ _ _ H1 H2).
Defined.

(** C10: an [<img>] without [src], or with an empty one, does not stop
    [parseDocument]: it yields an image asset with the empty file name and the
    [alt] text, and its [src] becomes ["./assets/"]. *)
Theorem parseDocument_img_without_src (doc : list node) (docId : string)
  (t : string) (attrs : list (string * string)) (cl : list string) (ch : list node)
  (Hin : In (Element t attrs cl ch) (querySelectorAll "img" doc))
  (Hsrc : getAttribute attrs "src" = None \/ getAttribute attrs "src" = Some EmptyString) :
  let out := parseDocument doc docId in
  In (mkAsset EmptyString (opt_str (getAttribute attrs "alt")) Image) (assets out) /\
  exists attrs',
    In (Element t attrs' (classList_add "jw-image" cl) (map rewrite_tree ch))
       (querySelectorAll "img" (html out)) /\
    getAttribute attrs' "src" = Some "./assets/"%string.
Proof.
  intros out. destruct (img_in_output doc docId t attrs cl ch Hin) as [H1 H2].
  assert (Hf : img_fileName (img_src attrs) = EmptyString)
    by (unfold img_src; destruct Hsrc as [-> | ->]; reflexivity).
  split.
  - unfold img_asset in H2. simpl attrs_of in H2. rewrite Hf in H2. exact H2.
  - exists (rewrite_img_attrs attrs). split; [exact H1|].
    destruct (rewrite_img_attrs_get attrs) as (Hs & _ & _). rewrite Hs, Hf. reflexivity.
Qed.

Lemma parseDocument_img_without_src_witness :
  In bare_img (querySelectorAll "img" [bare_img]) /\
  (getAttribute [("alt", "logo")]%string "src" = None \/
   getAttribute [("alt", "logo")]%string "src" = Some EmptyString) /\
  let out := parseDocument [bare_img] "d2" in
  In (mkAsset EmptyString (opt_str (getAttribute [("alt", "logo")]%string "alt")) Image)
     (assets out) /\
  exists attrs',
    In (Element "img" attrs' (classList_add "jw-image" []) (map rewrite_tree []))
       (querySelectorAll "img" (html out)) /\
    getAttribute attrs' "src" = Some "./assets/"%string.
Proof.
  assert (H1 : In bare_img (querySelectorAll "img" [bare_img])) by (simpl; auto).
  assert (H2 : getAttribute [("alt", "logo")]%string "src" = None \/
               getAttribute [("alt", "logo")]%string "src" = Some EmptyString)
    by (left; reflexivity).
  split; [exact H1|]. split; [exact H2|].
  exact (parseDocument_img_without_src [bare_img] "d2" _ _ _ _ H1 H2).
Defined.

(** C6 as stated fails: an anchor with no [href] and with [data-video]
    ["webpubvid://v"] yields a video reference linked to the [data-video]
    value, not to the [href] value (the empty string). *)
Lemma parseDocument_video_link_counterexample :
  references (parseDocument video_anchor_doc "d3") =
    [mkRef Video "webpubvid://v" "Clip"]%string /\
  ~ In (mkRef Video EmptyString "Clip"%string)
       (references (parseDocument video_anchor_doc "d3")).
Proof.
  split; [reflexivity|].
  simpl. intros [H|[]]. discriminate H.
Qed.

(** C6 (amended): every anchor whose [href] or [data-video] starts with
    ["webpubvid://"] yields a video reference whose link is the [data-video]
    value when it is non-empty and the [href] value otherwise, and whose text
    is the trimmed text of the anchor, or ["Video"] when that is empty; every
    video reference is also in the asset list, kind video, file name its link
    and alt text its text. *)
Theorem parseDocument_video_references (doc : list node) (docId : string) (a : node)
  (Hin : In a (querySelectorAll "a" doc))
  (Hvid : startsWith "webpubvid://" (opt_str (getAttribute (attrs_of a) "href")) = true \/
          startsWith "webpubvid://" (opt_str (getAttribute (attrs_of a) "data-video")) = true) :
  let out := parseDocument doc docId in
  let href := opt_str (getAttribute (attrs_of a) "href") in
  let dataVideo := opt_str (getAttribute (attrs_of a) "data-video") in
  In (mkRef Video (str_or dataVideo href) (str_or (trim (textContent a)) "Video"))
     (references out) /\
  (forall r, In r (references out) -> ref_type r = Video ->
     In (mkAsset (link r) (text r) VideoAsset) (assets out)).
Proof.
  intros out href dataVideo. split.
  - simpl. apply in_flat_map. exists a. split; [exact Hin|].
    unfold anchor_refs. fold href dataVideo.
    assert (Hv : (startsWith "webpubvid://" href || startsWith "webpubvid://" dataVideo)
                 = true) by (apply orb_true_iff; exact Hvid).
    rewrite Hv. apply in_or_app. right. left. reflexivity.
  - intros r Hr Ht. simpl. apply in_or_app. right.
    apply in_map_iff. exists r. split; [reflexivity|].
    apply filter_In. split; [exact Hr|]. unfold is_video. rewrite Ht. reflexivity.
Qed.

Lemma parseDocument_video_references_witness :
  In (hd (Text EmptyString) video_anchor_doc) (querySelectorAll "a" video_anchor_doc) /\
  let a := hd (Text EmptyString) video_anchor_doc in
  (startsWith "webpubvid://" (opt_str (getAttribute (attrs_of a) "href")) = true \/
   startsWith "webpubvid://" (opt_str (getAttribute (attrs_of a) "data-video")) = true) /\
  let out := parseDocument video_anchor_doc "d3" in
  let href := opt_str (getAttribute (attrs_of a) "href") in
  let dataVideo := opt_str (getAttribute (attrs_of a) "data-video") in
  In (mkRef Video (str_or dataVideo href) (str_or (trim (textContent a)) "Video"))
     (references out) /\
  (forall r, In r (references out) -> ref_type r = Video ->
     In (mkAsset (link r) (text r) VideoAsset) (assets out)).
Proof.
  assert (H1 : In (hd (Text EmptyString) video_anchor_doc)
                  (querySelectorAll "a" video_anchor_doc)) by (simpl; auto).
  assert (H2 : startsWith "webpubvid://"
                 (opt_str (getAttribute (attrs_of (hd (Text EmptyString) video_anchor_doc))
                                        "href")) = true \/
               startsWith "webpubvid://"
                 (opt_str (getAttribute (attrs_of (hd (Text EmptyString) video_anchor_doc))
                                        "data-video")) = true)
    by (right; reflexivity).
  split; [exact H1|]. split; [exact H2|].
  exact (parseDocument_video_references video_anchor_doc "d3" _ H1 H2).
Defined.

(** C4 as stated fails: on a document made of one [<img>] without [src],
    the first pass sets [src] to ["./assets/"]; in the second pass the last
    path segment of ["./assets/"] is empty, the file name falls back to the
    whole [src], and [src] becomes ["./assets/./assets/"]. *)
Lemma parseDocument_html_not_idempotent_counterexample :
  html (parseDocument srcless_doc "d") =
    [Element "img" [("src", "./assets/")]%string ["jw-image"%string] []] /\
  html (parseDocument (html (parseDocument srcless_doc "d")) "d") =
    [Element "img" [("src", "./assets/./assets/")]%string ["jw-image"%string] []] /\
  html (parseDocument (html (parseDocument srcless_doc "d")) "d") <>
    html (parseDocument srcless_doc "d").
Proof.
  split; [reflexivity|]. split; [reflexivity|].
  vm_compute. intros H. inversion H.
Qed.

(** C4 (amended): [parseDocument] is not idempotent on its html output.
    Every [<img>] of the input without a [src] attribute, or with an empty
    one, gets the [src] ["./assets/"] from a first pass; a second pass over
    the returned html reads the empty last segment of ["./assets/"], falls
    back to the whole [src] and sets it to ["./assets/./assets/"], so the
    html of the second pass differs from that of the first. The two [src]
    values are plain text without entities or backslashes, so serialising
    the first html and parsing it again gives that [src] back unchanged. *)
Theorem parseDocument_html_not_idempotent (doc : list node) (d : string)
  (t : string) (attrs : list (string * string)) (cl : list string) (ch : list node)
  (Himg : In (Element t attrs cl ch) (querySelectorAll "img" doc))
  (Hsrc : img_src attrs = EmptyString) :
  (exists a1 cl1 ch1,
     In (Element t a1 cl1 ch1) (querySelectorAll "img" (html (parseDocument doc d))) /\
     getAttribute a1 "src" = Some "./assets/"%string) /\
  (exists a2 cl2 ch2,
     In (Element t a2 cl2 ch2)
        (querySelectorAll "img" (html (parseDocument (html (parseDocument doc d)) d))) /\
     getAttribute a2 "src" = Some "./assets/./assets/"%string) /\
  html (parseDocument (html (parseDocument doc d)) d) <> html (parseDocument doc d).
Proof.
  destruct (img_in_output doc d t attrs cl ch Himg) as [H1 _].
  set (a1 := rewrite_img_attrs attrs) in H1.
  set (cl1 := classList_add "jw-image" cl) in H1.
  set (ch1 := map rewrite_tree ch) in H1.
  assert (Hs1 : getAttribute a1 "src" = Some "./assets/"%string).
  { unfold a1. rewrite (proj1 (rewrite_img_attrs_get attrs)), Hsrc. reflexivity. }
  destruct (img_in_output (html (parseDocument doc d)) d t a1 cl1 ch1 H1) as [H2 _].
  assert (Hs2 : getAttribute (rewrite_img_attrs a1) "src" = Some "./assets/./assets/"%string).
  { rewrite (proj1 (rewrite_img_attrs_get a1)). unfold img_src. rewrite Hs1. reflexivity. }
  split; [exists a1, cl1, ch1; split; assumption|].
  split; [eexists _, _, _; split; [exact H2|exact Hs2]|].
  intros Heq.
  assert (Hfix : map rewrite_tree (querySelectorAll "img" (html (parseDocument doc d))) =
                 querySelectorAll "img" (html (parseDocument doc d))).
  { rewrite <- querySelectorAll_rewrite. change (map rewrite_tree (html (parseDocument doc d)))
      with (html (parseDocument (html (parseDocument doc d)) d)). rewrite Heq. reflexivity. }
  assert (Hx : rewrite_tree (Element t a1 cl1 ch1) = Element t a1 cl1 ch1).
  { revert Hfix H1. generalize (querySelectorAll "img" (html (parseDocument doc d))).
    intros L. induction L as [|y L IH]; cbn [map In]; intros Hf Hin; [destruct Hin|].
    injection Hf as Hy HL. destruct Hin as [Hyeq|Hin]; [rewrite <- Hyeq; exact Hy|exact (IH HL Hin)]. }
  assert (Ht : String.eqb (to_lower t) "img" = true)
    by (unfold querySelectorAll in Himg; apply filter_In in Himg as [_ H]; exact H).
  rewrite rewrite_tree_img, Ht in Hx. injection Hx as Ha _ _.
  rewrite Ha, Hs1 in Hs2. discriminate.
Qed.

Lemma parseDocument_html_not_idempotent_witness :
  In (Element "img" [] [] []) (querySelectorAll "img" srcless_doc) /\
  img_src [] = EmptyString /\
  ((exists a1 cl1 ch1,
      In (Element "img" a1 cl1 ch1) (querySelectorAll "img" (html (parseDocument srcless_doc "d"))) /\
      getAttribute a1 "src" = Some "./assets/"%string) /\
   (exists a2 cl2 ch2,
      In (Element "img" a2 cl2 ch2)
         (querySelectorAll "img" (html (parseDocument (html (parseDocument srcless_doc "d")) "d"))) /\
      getAttribute a2 "src" = Some "./assets/./assets/"%string) /\
   html (parseDocument (html (parseDocument srcless_doc "d")) "d") <>
     html (parseDocument srcless_doc "d")).
Proof.
  assert (H1 : In (Element "img" [] [] []) (querySelectorAll "img" srcless_doc))
    by (left; reflexivity).
  assert (H2 : img_src [] = EmptyString) by reflexivity.
  split; [exact H1|]. split; [exact H2|].
  exact (parseDocument_html_not_idempotent srcless_doc "d" "img" [] [] [] H1 H2).
Defined.

End ParsingClaims.

Module SearchClaims.
Import Search SearchDefs.

(** C2 as stated fails: the search for ["love"] lists document 1 and then
    document 2, both with score 1, not with scores 2 and 1. *)
Lemma search_love_counterexample :
  search love_engine "love" =
    [mkResult 1 (Some love_node1); mkResult 1 (Some love_node2)] /\
  map score (search love_engine "love") <> [2; 1]%nat.
Proof. split; [vm_compute; reflexivity|]. vm_compute. intros H. inversion H. Qed.

(** C2 (amended): after adding document 1 (["<p>love and love</p>"]) and
    then document 2 (["<p>love</p>"]), the search for ["love"] returns
    document 1 first and document 2 second, each with score 1: a document is
    listed at most once under a word of the index, so a repeated word does not
    raise its score, and the tie keeps the insertion order. *)
Theorem search_love_ranking :
  map (fun r => (score r, option_map node_id (node r))) (search love_engine "love") =
    [(1, Some "1"); (1, Some "2")]%nat%string.
Proof. vm_compute. reflexivity. Qed.

End SearchClaims.

Module CryptoExtras.
Import Crypto CryptoDefs CryptoFacts.

Lemma list_ascii_app s1 s2 :
  list_ascii_of_string (s1 ++ s2) = list_ascii_of_string s1 ++ list_ascii_of_string s2.
Proof. induction s1; simpl; [reflexivity|]. rewrite IHs1. reflexivity. Qed.

Lemma string_app_assoc s1 s2 s3 : ((s1 ++ s2) ++ s3 = s1 ++ (s2 ++ s3))%string.
Proof. induction s1; simpl; [reflexivity|]. rewrite IHs1. reflexivity. Qed.

Lemma bytesToHex_app l1 l2 : bytesToHex (l1 ++ l2) = (bytesToHex l1 ++ bytesToHex l2)%string.
Proof.
  induction l1 as [|b l1 IH]; simpl; [reflexivity|]. rewrite IH, string_app_assoc. reflexivity.
Qed.

Lemma byte_hex_chars b : 0 <= b < 256 ->
  exists x y, list_ascii_of_string (padStart2 (toString16 b)) = [x; y] /\
              16 * hex_val x + hex_val y = b.
Proof.
  intros Hb.
  assert (Hall : forallb (fun k => match list_ascii_of_string (padStart2 (toString16 k)) with
                                   | [x; y] => 16 * hex_val x + hex_val y =? k
                                   | _ => false
                                   end) (map Z.of_nat (seq 0 256)) = true)
    by (vm_compute; reflexivity).
  rewrite forallb_forall in Hall.
  specialize (Hall b).
  assert (Hb' : In b (map Z.of_nat (seq 0 256)))
    by (apply in_map_iff; exists (Z.to_nat b); split; [lia | apply in_seq; lia]).
  specialize (Hall Hb').
  destruct (list_ascii_of_string (padStart2 (toString16 b))) as [|x [|y [|]]];
    try discriminate.
  exists x, y. split; [reflexivity|]. apply Z.eqb_eq. exact Hall.
Qed.

Lemma hex_pairs_bytesToHex l :
  Forall (fun b => 0 <= b < 256) l -> hex_pairs (list_ascii_of_string (bytesToHex l)) = l.
Proof.
  induction 1 as [|b l Hb _ IH]; [reflexivity|]. cbn [bytesToHex].
  rewrite list_ascii_app. destruct (byte_hex_chars b Hb) as (x & y & -> & Hxy).
  cbn [app hex_pairs]. rewrite Hxy, IH. reflexivity.
Qed.

Lemma hex_val_range c : is_hex c = true -> 0 <= hex_val c < 16.
Proof.
  unfold is_hex, hex_val. intros H. destruct (hex_value c) as [v|] eqn:E; [|discriminate].
  unfold hex_value in E. cbv zeta in E.
  repeat match type of E with context [if ?b then _ else _] => destruct b eqn:? end;
    try discriminate; injection E as <-;
    repeat match goal with Hb : (_ && _)%bool = true |- _ => apply andb_true_iff in Hb as [? ?] end;
    repeat match goal with Hb : (_ <=? _) = true |- _ => apply Z.leb_le in Hb end;
    lia.
Qed.

Lemma hex_pairs_bytes l :
  Forall (fun c => is_hex c = true) l -> Forall (fun b => 0 <= b < 256) (hex_pairs l).
Proof.
  intros H. remember (List.length l) as n eqn:En.
  revert l H En. induction n as [n IH] using (well_founded_induction lt_wf).
  intros [|a [|b r]] H En; cbn [hex_pairs]; [constructor|constructor|].
  inversion H as [|? ? Ha Hr]; subst. inversion Hr as [|? ? Hb Hr']; subst.
  pose proof (hex_val_range a Ha). pose proof (hex_val_range b Hb).
  apply Forall_cons; [lia|]. apply (IH (List.length r)); simpl; auto; lia.
Qed.

Lemma filter_idem {A} (f : A -> bool) l : filter f (filter f l) = filter f l.
Proof.
  induction l as [|x l IH]; simpl; [reflexivity|].
  destruct (f x) eqn:E; simpl; [rewrite E, IH|]; auto.
Qed.

Lemma map_from_map_from {A B C} (f : nat -> B -> C) (g : nat -> A -> B) i l :
  map_from f i (map_from g i l) = map_from (fun j x => f j (g j x)) i l.
Proof. revert i; induction l as [|x l IH]; intros i; simpl; [reflexivity|]. rewrite IH. reflexivity. Qed.

Lemma map_from_id {A} (f : nat -> A -> A) i l :
  (forall j x, In x l -> f j x = x) -> map_from f i l = l.
Proof.
  revert i; induction l as [|x l IH]; intros i H; simpl; [reflexivity|].
  rewrite H by (left; reflexivity). rewrite IH; [reflexivity|]. intros; apply H; right; assumption.
Qed.

Lemma mod256_land x : x mod 256 = Z.land x (Z.ones 8).
Proof. rewrite Z.land_ones by lia. reflexivity. Qed.

Lemma lxor_twice_mod b k : 0 <= b < 256 -> Z.lxor (Z.lxor b k mod 256) k mod 256 = b.
Proof.
  intros Hb. rewrite !mod256_land. transitivity (Z.land b (Z.ones 8)).
  - apply Z.bits_inj'. intros n Hn.
    repeat (rewrite ?Z.land_spec, ?Z.lxor_spec).
    destruct (Z.testbit b n), (Z.testbit k n), (Z.testbit (Z.ones 8) n); reflexivity.
  - rewrite <- mod256_land. apply Z.mod_small. exact Hb.
Qed.

Lemma xor_at_twice buf2 j b : 0 <= b < 256 -> xor_at buf2 j (xor_at buf2 j b) = b.
Proof.
  intros Hb. unfold xor_at. destruct buf2 as [|k ks].
  - rewrite Z.mod_mod by lia. apply Z.mod_small. exact Hb.
  - apply lxor_twice_mod. exact Hb.
Qed.

Lemma substring_app_l s1 s2 : substring 0 (String.length s1) (s1 ++ s2) = s1.
Proof. induction s1; simpl; [destruct s2; reflexivity|]. rewrite IHs1. reflexivity. Qed.

Lemma substring_app_r s1 s2 : substring (String.length s1) (String.length s2) (s1 ++ s2) = s2.
Proof. induction s1; simpl; [apply substring_0_all|]. exact IHs1. Qed.

Lemma hexToBytes_roundtrip bytes :
  Forall (fun b => 0 <= b < 256) bytes -> hexToBytes (bytesToHex bytes) = bytes.
Proof.
  intros Hb. unfold hexToBytes. rewrite filter_all_hex by (apply bytesToHex_all_hex; exact Hb).
  apply hex_pairs_bytesToHex. exact Hb.
Qed.

Lemma Forall_firstn' {A} (P : A -> Prop) n l : Forall P l -> Forall P (firstn n l).
Proof.
  revert l; induction n as [|n IH]; intros l H; [constructor|].
  destruct H; simpl; constructor; auto.
Qed.

Lemma Forall_skipn' {A} (P : A -> Prop) n l : Forall P l -> Forall P (skipn n l).
Proof.
  revert l; induction n as [|n IH]; intros l H; [exact H|].
  destruct H; simpl; [constructor|auto].
Qed.

(** hexToBytes inverts bytesToHex: rendering bytes [0 .. 255] as hex and
    reading the hex back gives the same bytes. *)
Theorem hexToBytes_bytesToHex (bytes : list Z)
  (Hb : Forall (fun b => 0 <= b < 256) bytes) :
  hexToBytes (bytesToHex bytes) = bytes.
Proof. apply hexToBytes_roundtrip. exact Hb. Qed.

Lemma hexToBytes_bytesToHex_witness :
  Forall (fun b => 0 <= b < 256) [0; 9; 171; 255] /\
  hexToBytes (bytesToHex [0; 9; 171; 255]) = [0; 9; 171; 255].
Proof.
  assert (H : Forall (fun b => 0 <= b < 256) [0; 9; 171; 255]) by (repeat constructor; lia).
  split; [exact H|]. exact (hexToBytes_bytesToHex _ H).
Defined.

(** hexToBytes drops every character that is not a hex digit and reads the
    remaining digits in pairs: the result has half as many bytes as the input
    has hex digits (a trailing odd digit is ignored), each in [0 .. 255], and
    does not change when the non-hex characters are removed first. *)
Theorem hexToBytes_shape (hex : string) :
  let digits := filter is_hex (list_ascii_of_string hex) in
  List.length (hexToBytes hex) = (List.length digits / 2)%nat /\
  Forall (fun b => 0 <= b < 256) (hexToBytes hex) /\
  hexToBytes (string_of_list_ascii digits) = hexToBytes hex.
Proof.
  intros digits. unfold hexToBytes. split; [apply hex_pairs_length|]. split.
  - apply hex_pairs_bytes. apply Forall_forall. intros c Hc.
    apply filter_In in Hc. apply Hc.
  - rewrite list_ascii_of_string_of_list_ascii. unfold digits.
    rewrite filter_idem. reflexivity.
Qed.

(** xorBuffers keeps the length of its first buffer, and applying it twice
    with the same second buffer gives the first buffer back (for bytes of
    [0 .. 255]; also when the second buffer is empty). *)
Theorem xorBuffers_involutive (buf1 buf2 : list Z)
  (Hb : Forall (fun b => 0 <= b < 256) buf1) :
  List.length (xorBuffers buf1 buf2) = List.length buf1 /\
  xorBuffers (xorBuffers buf1 buf2) buf2 = buf1.
Proof.
  split; [apply map_from_length|]. unfold xorBuffers. rewrite map_from_map_from.
  apply map_from_id. intros j x Hx. rewrite Forall_forall in Hb.
  apply xor_at_twice, Hb, Hx.
Qed.

Lemma xorBuffers_involutive_witness :
  Forall (fun b => 0 <= b < 256) [1; 2; 250] /\
  List.length (xorBuffers [1; 2; 250] [7; 300]) = List.length [1; 2; 250] /\
  xorBuffers (xorBuffers [1; 2; 250] [7; 300]) [7; 300] = [1; 2; 250].
Proof.
  assert (H : Forall (fun b => 0 <= b < 256) [1; 2; 250]) by (repeat constructor; lia).
  split; [exact H|]. exact (xorBuffers_involutive _ [7; 300] H).
Defined.

(** Feeding the key and IV of getDeriveKeyAndIv to decryptAndInflate never
    fails in importKey: the key decodes to the first 16 bytes of the XOR of
    the digest with the master key (an AES-128 key) and the IV to the last 16,
    and the outcome is that of AES-CBC decryption with them, then inflate. *)
Theorem derived_key_iv_decrypt (generateSHA256 : list Z -> list Z)
  (aes_decrypt_block : list Z -> list Z -> list Z) (inflate : list Z -> InflateResult)
  (utf8_decode : list Z -> string) (pubCard : string) (data : list Z)
  (Hlen : List.length (generateSHA256 (TextEncoder_encode pubCard)) = 32%nat) :
  let xored := xorBuffers (generateSHA256 (TextEncoder_encode pubCard)) masterKey in
  exists key iv,
    getDeriveKeyAndIv generateSHA256 pubCard = Some (key, iv) /\
    hexToBytes key = firstn 16 xored /\ hexToBytes iv = skipn 16 xored /\
    decryptAndInflate aes_decrypt_block inflate utf8_decode data key iv =
      match aes_cbc_decrypt aes_decrypt_block (firstn 16 xored) (skipn 16 xored) data with
      | None => Rejected OperationError
      | Some decrypted =>
          match inflate decrypted with
          | InflateThrows msg => Rejected (Thrown msg)
          | Inflated out => Resolved (utf8_decode out)
          end
      end.
Proof.
  intros xored. rewrite getDeriveKeyAndIv_eq. fold xored.
  assert (Hx : List.length xored = 32%nat)
    by (unfold xored, xorBuffers; rewrite map_from_length; exact Hlen).
  assert (Hb : Forall (fun b => 0 <= b < 256) xored) by apply map_from_xor_bytes.
  assert (H1 : List.length (firstn 16 xored) = 16%nat) by (rewrite length_firstn; lia).
  assert (H2 : List.length (skipn 16 xored) = 16%nat) by (rewrite length_skipn; lia).
  assert (Hs : bytesToHex xored =
               (bytesToHex (firstn 16 xored) ++ bytesToHex (skipn 16 xored))%string)
    by (rewrite <- bytesToHex_app, firstn_skipn; reflexivity).
  assert (Hk : substring 0 32 (bytesToHex xored) = bytesToHex (firstn 16 xored)).
  { rewrite Hs. replace 32%nat with (String.length (bytesToHex (firstn 16 xored)))
      by (rewrite bytesToHex_length, H1; reflexivity).
    apply substring_app_l. }
  assert (Hv : substring 32 32 (bytesToHex xored) = bytesToHex (skipn 16 xored)).
  { rewrite Hs.
    replace (substring 32 32) with
      (substring (String.length (bytesToHex (firstn 16 xored)))
                 (String.length (bytesToHex (skipn 16 xored))))
      by (rewrite !bytesToHex_length, H1, H2; reflexivity).
    apply substring_app_r. }
  assert (Ek : hexToBytes (bytesToHex (firstn 16 xored)) = firstn 16 xored)
    by (apply hexToBytes_roundtrip, Forall_firstn', Hb).
  assert (Ev : hexToBytes (bytesToHex (skipn 16 xored)) = skipn 16 xored)
    by (apply hexToBytes_roundtrip, Forall_skipn', Hb).
  cbv zeta. rewrite Hk, Hv.
  exists (bytesToHex (firstn 16 xored)), (bytesToHex (skipn 16 xored)).
  split; [reflexivity|]. rewrite Ek, Ev. split; [reflexivity|]. split; [reflexivity|].
  unfold decryptAndInflate. rewrite Ek, Ev.
  unfold importKey. rewrite H1. reflexivity.
Qed.

Lemma derived_key_iv_decrypt_witness :
  List.length ((fun _ : list Z => repeat 7 32) (TextEncoder_encode "S_w_202511")) = 32%nat /\
  let xored := xorBuffers ((fun _ : list Z => repeat 7 32) (TextEncoder_encode "S_w_202511"))
                          masterKey in
  exists key iv,
    getDeriveKeyAndIv (fun _ => repeat 7 32) "S_w_202511" = Some (key, iv) /\
    hexToBytes key = firstn 16 xored /\ hexToBytes iv = skipn 16 xored /\
    decryptAndInflate (fun _ b => b) (fun b => Inflated b) (fun _ => EmptyString) [] key iv =
      match aes_cbc_decrypt (fun _ b => b) (firstn 16 xored) (skipn 16 xored) [] with
      | None => Rejected OperationError
      | Some decrypted =>
          match (fun b => Inflated b) decrypted with
          | InflateThrows msg => Rejected (Thrown msg)
          | Inflated out => Resolved ((fun _ => EmptyString) out)
          end
      end.
Proof.
  assert (H : List.length ((fun _ : list Z => repeat 7 32) (TextEncoder_encode "S_w_202511"))
              = 32%nat) by reflexivity.
  split; [exact H|].
  exact (derived_key_iv_decrypt (fun _ => repeat 7 32) (fun _ b => b) (fun b => Inflated b)
           (fun _ => EmptyString) "S_w_202511" [] H).
Defined.

End CryptoExtras.

Module SearchExtras.
Import Search SearchDefs.

(** ** The insertion-ordered map *)

Section MapLemmas.
Context {V : Type}.

Lemma existsb_key_In (m : list (string * V)) k :
  existsb (fun kv => String.eqb (fst kv) k) m = true <-> In k (map fst m).
Proof.
  rewrite existsb_exists. split.
  - intros ([k' v] & Hin & He). apply String.eqb_eq in He. simpl in He. subst k'.
    apply in_map_iff. exists (k, v). auto.
  - intros Hin. apply in_map_iff in Hin as ([k' v] & Hk & Hin). simpl in Hk. subst k'.
    exists (k, v). split; [exact Hin|]. apply String.eqb_refl.
Qed.

Lemma map_get_None (m : list (string * V)) k :
  existsb (fun kv => String.eqb (fst kv) k) m = false -> map_get m k = None.
Proof.
  unfold map_get. induction m as [|[k' v] m IH]; simpl; [reflexivity|].
  destruct (String.eqb k' k); [discriminate|]. exact IH.
Qed.

Lemma map_get_app_None (m : list (string * V)) k v :
  existsb (fun kv => String.eqb (fst kv) k) m = false -> map_get (m ++ [(k, v)]) k = Some v.
Proof.
  unfold map_get. induction m as [|[k' v'] m IH]; simpl; intros H.
  - rewrite String.eqb_refl. reflexivity.
  - destruct (String.eqb k' k); [discriminate|]. exact (IH H).
Qed.

Lemma map_get_set_same (m : list (string * V)) k v : map_get (map_set m k v) k = Some v.
Proof.
  unfold map_set. destruct (existsb _ m) eqn:E; [|apply map_get_app_None, E].
  revert E. unfold map_get. induction m as [|[k' v'] m IH]; simpl; intros E.
  - discriminate.
  - destruct (String.eqb k' k) eqn:Ek; simpl; [rewrite String.eqb_refl; reflexivity|].
    rewrite Ek. exact (IH E).
Qed.

Lemma map_get_set_other (m : list (string * V)) k k' v :
  k' <> k -> map_get (map_set m k v) k' = map_get m k'.
Proof.
  intros Hne. unfold map_set, map_get.
  destruct (existsb _ m).
  - induction m as [|[k0 v0] m IH]; simpl; [reflexivity|].
    destruct (String.eqb k0 k) eqn:E; simpl.
    + apply String.eqb_eq in E. subst k0.
      rewrite (proj2 (String.eqb_neq k k')) by congruence. exact IH.
    + destruct (String.eqb k0 k'); [reflexivity|exact IH].
  - induction m as [|[k0 v0] m IH]; simpl.
    + rewrite (proj2 (String.eqb_neq k k')) by congruence. reflexivity.
    + destruct (String.eqb k0 k'); [reflexivity|exact IH].
Qed.

Lemma map_set_keys (m : list (string * V)) k v :
  map fst (map_set m k v) =
  if existsb (fun kv => String.eqb (fst kv) k) m then map fst m else map fst m ++ [k].
Proof.
  unfold map_set. destruct (existsb _ m); [|rewrite map_app; reflexivity].
  rewrite map_map. apply map_ext. intros [k0 v0]. simpl.
  destruct (String.eqb k0 k) eqn:E; [apply String.eqb_eq in E; auto|reflexivity].
Qed.

Lemma map_set_keys_In (m : list (string * V)) k v x :
  In x (map fst (map_set m k v)) <-> In x (map fst m) \/ x = k.
Proof.
  rewrite map_set_keys. destruct (existsb _ m) eqn:E.
  - apply existsb_key_In in E. split; [auto|]. intros [H| ->]; auto.
  - rewrite in_app_iff. simpl. intuition.
Qed.

Lemma map_set_NoDup (m : list (string * V)) k v :
  NoDup (map fst m) -> NoDup (map fst (map_set m k v)).
Proof.
  intros H. rewrite map_set_keys. destruct (existsb _ m) eqn:E; [exact H|].
  apply NoDup_app; [exact H|constructor; [intros []|constructor]|].
  intros x Hx [<-|[]]. apply existsb_key_In in Hx. congruence.
Qed.

Lemma map_get_In (m : list (string * V)) k v : map_get m k = Some v -> In (k, v) m.
Proof.
  unfold map_get. induction m as [|[k' v'] m IH]; simpl; [discriminate|].
  destruct (String.eqb k' k) eqn:E.
  - intros H. injection H as <-. apply String.eqb_eq in E. subst. left; reflexivity.
  - intros H. right. exact (IH H).
Qed.

Lemma In_map_get (m : list (string * V)) k v :
  NoDup (map fst m) -> In (k, v) m -> map_get m k = Some v.
Proof.
  unfold map_get. induction m as [|[k' v'] m IH]; simpl; [intros _ []|].
  intros Hnd Hin. inversion Hnd as [|? ? Hn Hnd']; subst.
  destruct Hin as [Heq|Hin].
  - injection Heq as -> ->. rewrite String.eqb_refl. reflexivity.
  - destruct (String.eqb k' k) eqn:E.
    + apply String.eqb_eq in E. subst k'. exfalso. apply Hn.
      apply in_map_iff. exists (k, v). auto.
    + exact (IH Hnd' Hin).
Qed.

Lemma map_get_key (m : list (string * V)) k v : map_get m k = Some v -> In k (map fst m).
Proof. intros H. apply map_get_In in H. apply in_map_iff. exists (k, v). auto. Qed.

End MapLemmas.

(** ** Posting lists under addNode *)

Lemma posting_mk idx ns w :
  posting (mkEngine idx ns) w = match map_get idx w with Some ids => ids | None => [] end.
Proof. reflexivity. Qed.

Lemma index_word_posting id idx ns w' w :
  posting (mkEngine (index_word id idx w') ns) w =
  if String.eqb w w'
  then (if existsb (String.eqb id) (posting (mkEngine idx ns) w)
        then posting (mkEngine idx ns) w else posting (mkEngine idx ns) w ++ [id])
  else posting (mkEngine idx ns) w.
Proof.
  rewrite !posting_mk. unfold index_word.
  destruct (String.eqb_spec w w') as [->|Hne].
  - destruct (map_get idx w') as [l|] eqn:E.
    + rewrite E. destruct (existsb (String.eqb id) l); [rewrite E; reflexivity|].
      rewrite map_get_set_same. reflexivity.
    + rewrite map_get_set_same. simpl. rewrite map_get_set_same. reflexivity.
  - destruct (map_get idx w') as [l|] eqn:E.
    + rewrite E. destruct (existsb (String.eqb id) l); [reflexivity|].
      rewrite map_get_set_other by exact Hne. reflexivity.
    + rewrite map_get_set_same. simpl.
      rewrite !map_get_set_other by exact Hne. reflexivity.
Qed.

Lemma fold_index_word_posting id words idx ns w :
  posting (mkEngine (fold_left (index_word id) words idx) ns) w =
  posting (mkEngine idx ns) w ++
  (if existsb (String.eqb w) words && negb (existsb (String.eqb id) (posting (mkEngine idx ns) w))
   then [id] else []).
Proof.
  revert idx. induction words as [|w' words IH]; intros idx; simpl.
  - rewrite app_nil_r. reflexivity.
  - rewrite IH, index_word_posting.
    destruct (String.eqb w w') eqn:Ew; simpl.
    + destruct (existsb (String.eqb id) (posting (mkEngine idx ns) w)) eqn:Ei; simpl.
      * rewrite Ei. simpl. rewrite andb_false_r. reflexivity.
      * rewrite existsb_app. simpl. rewrite String.eqb_refl, orb_true_r. simpl.
        rewrite andb_false_r, app_nil_r. reflexivity.
    + reflexivity.
Qed.

Lemma addNode_posting e id title html w :
  posting (addNode e id title html) w =
  posting e w ++
  (if existsb (String.eqb w) (tokenize (html_text html)) &&
      negb (existsb (String.eqb id) (posting e w))
   then [id] else []).
Proof.
  unfold addNode. rewrite fold_index_word_posting. destruct e as [idx ns]. reflexivity.
Qed.

(** ** The invariant of built engines *)

Lemma index_word_keys id idx w :
  NoDup (map fst idx) -> NoDup (map fst (index_word id idx w)).
Proof.
  intros H. unfold index_word.
  assert (H1 : NoDup (map fst (match map_get idx w with
                               | Some _ => idx
                               | None => map_set idx w []
                               end)))
    by (destruct (map_get idx w); [exact H|apply map_set_NoDup, H]).
  revert H1. generalize (match map_get idx w with
                         | Some _ => idx
                         | None => map_set idx w []
                         end). intros idx1 H1.
  destruct (map_get idx1 w) as [l|]; [|exact H1].
  destruct (existsb (String.eqb id) l); [exact H1|]. apply map_set_NoDup, H1.
Qed.

Lemma fold_index_word_keys id words idx :
  NoDup (map fst idx) -> NoDup (map fst (fold_left (index_word id) words idx)).
Proof.
  revert idx; induction words as [|w words IH]; intros idx H; simpl; [exact H|].
  apply IH, index_word_keys, H.
Qed.

Lemma engine_ok_empty : engine_ok empty_engine.
Proof.
  unfold engine_ok, posting. simpl.
  split; [constructor|split; [constructor|split]].
  - intros w. constructor.
  - intros w x [].
Qed.

Lemma engine_ok_addNode e id title html :
  engine_ok e -> engine_ok (addNode e id title html).
Proof.
  intros (Hidx & Hns & Hnd & Hn). split; [|split; [|split]].
  - apply fold_index_word_keys, Hidx.
  - apply map_set_NoDup, Hns.
  - intros w. rewrite addNode_posting.
    destruct (_ && _) eqn:E; [|rewrite app_nil_r; apply Hnd].
    apply andb_true_iff in E as [_ E]. apply negb_true_iff in E.
    apply NoDup_app; [apply Hnd|constructor; [intros []|constructor]|].
    intros x Hx [Hx'|[]]. subst x.
    assert (existsb (String.eqb id) (posting e w) = true)
      by (apply existsb_exists; exists id; split; [exact Hx|apply String.eqb_refl]).
    congruence.
  - intros w x Hx. rewrite addNode_posting in Hx. simpl.
    destruct (String.eqb_spec x id) as [->|Hne].
    + eexists. split; [apply map_get_set_same|reflexivity].
    + rewrite map_get_set_other by exact Hne. apply (Hn w x).
      apply in_app_or in Hx as [Hx|Hx]; [exact Hx|].
      destruct (_ && _); [destruct Hx as [<-|[]]; congruence|destruct Hx].
Qed.

Lemma build_ok_from docs e :
  engine_ok e ->
  engine_ok (fold_left (fun e '(id, title, html) => addNode e id title html) docs e).
Proof.
  revert e; induction docs as [|[[id title] html] docs IH]; intros e H; simpl; [exact H|].
  apply IH, engine_ok_addNode, H.
Qed.

Lemma build_ok docs : engine_ok (build docs).
Proof. apply build_ok_from, engine_ok_empty. Qed.

(** ** Counting the query tokens *)

Lemma count_id_get R id x :
  map_get (count_id R id) x =
  if String.eqb x id
  then Some (match map_get R x with Some n => n | None => 0 end + 1)%nat
  else map_get R x.
Proof.
  unfold count_id. destruct (String.eqb_spec x id) as [->|Hne].
  - apply map_get_set_same.
  - apply map_get_set_other, Hne.
Qed.

Lemma fold_count_id ids R x :
  NoDup ids ->
  map_get (fold_left count_id ids R) x =
  if existsb (String.eqb x) ids
  then Some (match map_get R x with Some n => n | None => 0 end + 1)%nat
  else map_get R x.
Proof.
  revert R. induction ids as [|i ids IH]; intros R Hnd; simpl; [reflexivity|].
  inversion Hnd as [|? ? Hi Hnd']; subst.
  rewrite (IH _ Hnd'), !count_id_get.
  destruct (String.eqb_spec x i) as [->|Hne]; simpl.
  - destruct (existsb (String.eqb i) ids) eqn:E; [|reflexivity].
    apply existsb_exists in E as (y & Hy & Ey). apply String.eqb_eq in Ey. subst y.
    contradiction.
  - destruct (existsb (String.eqb x) ids); [|reflexivity].
    reflexivity.
Qed.

Lemma count_id_keys R id : NoDup (map fst R) -> NoDup (map fst (count_id R id)).
Proof. apply map_set_NoDup. Qed.

Lemma fold_count_id_keys ids R : NoDup (map fst R) -> NoDup (map fst (fold_left count_id ids R)).
Proof.
  revert R; induction ids as [|i ids IH]; intros R H; simpl; [exact H|].
  apply IH, count_id_keys, H.
Qed.

Lemma hits_cons e t ts x :
  hits e (t :: ts) x =
  ((if existsb (String.eqb x) (posting e t) then 1 else 0) + hits e ts x)%nat.
Proof. unfold hits. simpl. destruct (existsb _ _); reflexivity. Qed.

Lemma fold_tokens e ts R x :
  (forall t, NoDup (posting e t)) ->
  map_get (fold_left (fun res token =>
                        let matches := match map_get (index e) token with
                                       | Some ids => ids
                                       | None => []
                                       end in
                        fold_left count_id matches res) ts R) x =
  match map_get R x with
  | None => if (hits e ts x =? 0)%nat then None else Some (hits e ts x)
  | Some a => Some (a + hits e ts x)%nat
  end.
Proof.
  intros Hnd. revert R. induction ts as [|t ts IH]; intros R; simpl.
  - destruct (map_get R x); [rewrite Nat.add_0_r|]; reflexivity.
  - rewrite IH. fold (posting e t). rewrite hits_cons.
    rewrite (fold_count_id _ _ _ (Hnd t)).
    destruct (existsb (String.eqb x) (posting e t)); simpl.
    + destruct (map_get R x); f_equal; lia.
    + reflexivity.
Qed.

Lemma fold_tokens_keys e ts R :
  NoDup (map fst R) ->
  NoDup (map fst (fold_left (fun res token =>
                        let matches := match map_get (index e) token with
                                       | Some ids => ids
                                       | None => []
                                       end in
                        fold_left count_id matches res) ts R)).
Proof.
  revert R; induction ts as [|t ts IH]; intros R H; simpl; [exact H|].
  apply IH, fold_count_id_keys, H.
Qed.

Lemma hits_pos e ts x :
  (0 < hits e ts x)%nat -> exists t, In t ts /\ In x (posting e t).
Proof.
  induction ts as [|t ts IH]; [unfold hits; simpl; lia|].
  rewrite hits_cons. destruct (existsb (String.eqb x) (posting e t)) eqn:E.
  - intros _. exists t. split; [left; reflexivity|].
    apply existsb_exists in E as (y & Hy & Ey). apply String.eqb_eq in Ey. subst. exact Hy.
  - intros H. destruct IH as (t' & ? & ?); [lia|]. exists t'. split; [right|]; assumption.
Qed.

(** ** The stable sort *)

Definition desc (a b : string * nat) : Prop := (snd b <= snd a)%nat.

Lemma insert_desc_perm x l : Permutation (insert_desc x l) (x :: l).
Proof.
  induction l as [|y l IH]; simpl; [reflexivity|].
  destruct (snd y <? snd x)%nat; [reflexivity|].
  rewrite IH. apply perm_swap.
Qed.

Lemma sort_desc_perm_from l acc :
  Permutation (fold_left (fun acc x => insert_desc x acc) l acc) (l ++ acc).
Proof.
  revert acc; induction l as [|x l IH]; intros acc; simpl; [reflexivity|].
  rewrite IH, insert_desc_perm. symmetry. apply Permutation_middle.
Qed.

Lemma sort_desc_perm l : Permutation (sort_desc l) l.
Proof. unfold sort_desc. rewrite sort_desc_perm_from, app_nil_r. reflexivity. Qed.

Lemma insert_desc_hd a x l :
  HdRel desc a l -> desc a x -> HdRel desc a (insert_desc x l).
Proof.
  intros H Hx. destruct l as [|y l]; simpl; [constructor; exact Hx|].
  destruct (snd y <? snd x)%nat; constructor; [exact Hx|]. inversion H; assumption.
Qed.

Lemma insert_desc_sorted x l : Sorted desc l -> Sorted desc (insert_desc x l).
Proof.
  induction l as [|y l IH]; intros H; simpl; [repeat constructor|].
  destruct (Nat.ltb_spec (snd y) (snd x)) as [Hlt|Hge].
  - constructor; [exact H|]. constructor. unfold desc. lia.
  - inversion H as [|? ? Hl Hhd]; subst. constructor; [apply IH, Hl|].
    apply insert_desc_hd; [exact Hhd|]. unfold desc. lia.
Qed.

Lemma sort_desc_sorted l : Sorted desc (sort_desc l).
Proof.
  unfold sort_desc. assert (H : Sorted desc (@nil (string * nat))) by constructor.
  revert H. generalize (@nil (string * nat)).
  induction l as [|x l IH]; intros acc H; simpl; [exact H|].
  apply IH, insert_desc_sorted, H.
Qed.

Lemma Sorted_map_rel {A B} (RA : A -> A -> Prop) (RB : B -> B -> Prop) (f : A -> B) l :
  (forall a b, RA a b -> RB (f a) (f b)) -> Sorted RA l -> Sorted RB (map f l).
Proof.
  intros Hf H. induction H as [|a l Hl IH Hhd]; simpl; constructor; [exact IH|].
  destruct Hhd; simpl; constructor. apply Hf. assumption.
Qed.

Lemma NoDup_map_Some {A} (l : list A) : NoDup l -> NoDup (map Some l).
Proof.
  induction 1; simpl; constructor; [|assumption].
  intros Hin. apply in_map_iff in Hin as (y & Hy & Hin). injection Hy as ->. contradiction.
Qed.

Lemma search_as_map e q :
  search e q =
  map (fun '(id, sc) => mkResult sc (map_get (nodes e) id))
      (sort_desc (fold_left (fun res token =>
                        let matches := match map_get (index e) token with
                                       | Some ids => ids
                                       | None => []
                                       end in
                        fold_left count_id matches res) (tokenize q) [])).
Proof. unfold search. destruct (tokenize q); reflexivity. Qed.

(** ** Extra properties of the search engine *)

(** [addNode] appends [id] at the end of the posting list of every word of
    the new text that does not list it yet, leaves every other posting list
    as it was (it never removes an id, also when [id] was indexed before
    with another text), and stores the node under [id], replacing any node
    stored there. *)
Theorem addNode_effect e id title html :
  (forall w,
     posting (addNode e id title html) w =
     posting e w ++
     (if existsb (String.eqb w) (tokenize (html_text html)) &&
         negb (existsb (String.eqb id) (posting e w))
      then [id] else [])) /\
  (forall x,
     map_get (nodes (addNode e id title html)) x =
     if String.eqb x id then Some (mkNode id title (html_text html) html)
     else map_get (nodes e) x).
Proof.
  split; [apply addNode_posting|].
  intros x. simpl. destruct (String.eqb_spec x id) as [->|Hne].
  - apply map_get_set_same.
  - apply map_get_set_other, Hne.
Qed.

(** For an engine built by [addNode] calls, [search e q] returns one result
    per id listed under at least one token of [q] (counting a token each
    time it occurs in [q]); the result carries the node stored under that
    id and as score the number of such tokens; no id comes twice, and the
    scores never increase along the list. *)
Theorem search_results docs q :
  let e := build docs in
  let ts := tokenize q in
  (forall r, In r (search e q) ->
     exists n, node r = Some n /\ map_get (nodes e) (node_id n) = Some n /\
               score r = hits e ts (node_id n) /\ (0 < score r)%nat) /\
  (forall id, (0 < hits e ts id)%nat ->
     exists r, In r (search e q) /\ option_map node_id (node r) = Some id) /\
  NoDup (map (fun r => option_map node_id (node r)) (search e q)) /\
  Sorted (fun r1 r2 => (score r2 <= score r1)%nat) (search e q).
Proof.
  intros e ts.
  pose proof (build_ok docs) as (_ & _ & Hnd & Hn). fold e in Hnd, Hn.
  rewrite search_as_map. fold ts.
  set (R := fold_left _ ts []).
  assert (HR : forall x, map_get R x =
                         if (hits e ts x =? 0)%nat then None else Some (hits e ts x))
    by (intros x; unfold R; rewrite fold_tokens by exact Hnd; reflexivity).
  assert (HRk : NoDup (map fst R)) by (apply fold_tokens_keys; constructor).
  pose proof (sort_desc_perm R) as Hp.
  set (S := sort_desc R) in *.
  assert (HSk : NoDup (map fst S))
    by (apply (Permutation_NoDup (l := map fst R)); [symmetry; apply Permutation_map, Hp|exact HRk]).
  assert (HS : forall id sc, In (id, sc) S ->
                 sc = hits e ts id /\ (0 < sc)%nat /\
                 exists n, map_get (nodes e) id = Some n /\ node_id n = id).
  { intros id sc Hin. apply (Permutation_in _ Hp) in Hin.
    apply In_map_get in Hin; [|exact HRk]. rewrite HR in Hin.
    destruct (Nat.eqb_spec (hits e ts id) 0) as [|H0]; [discriminate|].
    injection Hin as <-. split; [reflexivity|split; [lia|]].
    destruct (hits_pos e ts id) as (t & _ & Ht); [lia|]. exact (Hn t id Ht). }
  split; [|split; [|split]].
  - intros r Hr. apply in_map_iff in Hr as ([id sc] & <- & Hin).
    destruct (HS id sc Hin) as (-> & Hpos & n & Hget & Hid).
    exists n. simpl. rewrite Hid. repeat split; assumption.
  - intros id Hpos.
    assert (Hin : In (id, hits e ts id) S).
    { apply (Permutation_in _ (Permutation_sym Hp)). apply map_get_In.
      rewrite HR. destruct (Nat.eqb_spec (hits e ts id) 0); [lia|reflexivity]. }
    destruct (HS _ _ Hin) as (_ & _ & n & Hget & Hid).
    exists (mkResult (hits e ts id) (Some n)). split.
    + apply in_map_iff. exists (id, hits e ts id). simpl. rewrite Hget. split; [reflexivity|exact Hin].
    + simpl. rewrite Hid. reflexivity.
  - rewrite map_map.
    assert (Heq : map (fun x => option_map node_id (node (let '(id, sc) := x in
                                 mkResult sc (map_get (nodes e) id)))) S =
                  map Some (map fst S)).
    { rewrite map_map. apply map_ext_in. intros [id sc] Hin. simpl.
      destruct (HS id sc Hin) as (_ & _ & n & -> & Hid). simpl. rewrite Hid. reflexivity. }
    rewrite Heq. apply NoDup_map_Some, HSk.
  - apply (Sorted_map_rel desc); [|apply sort_desc_sorted].
    intros [a1 s1] [a2 s2]. unfold desc. simpl. exact (fun H => H).
Qed.

(** ** Counting nodes and terms *)

Lemma index_word_keys_In id idx w x :
  In x (map fst (index_word id idx w)) <-> In x (map fst idx) \/ x = w.
Proof.
  unfold index_word.
  assert (H1 : forall y, In y (map fst (match map_get idx w with
                                          | Some _ => idx
                                          | None => map_set idx w []
                                          end)) <-> In y (map fst idx) \/ y = w).
  { intros y. destruct (map_get idx w) eqn:E.
    - apply map_get_key in E. split; [intros H; left; exact H|]. intros [H| ->]; assumption.
    - apply map_set_keys_In. }
  revert H1. generalize (match map_get idx w with
                         | Some _ => idx
                         | None => map_set idx w []
                         end). intros idx1 H1.
  destruct (map_get idx1 w) as [l|]; [|apply H1].
  destruct (existsb (String.eqb id) l); [apply H1|].
  rewrite map_set_keys_In, H1. tauto.
Qed.

Lemma fold_index_word_keys_In id words idx x :
  In x (map fst (fold_left (index_word id) words idx)) <-> In x (map fst idx) \/ In x words.
Proof.
  revert idx; induction words as [|w words IH]; intros idx; simpl; [tauto|].
  rewrite IH, index_word_keys_In. intuition.
Qed.

Lemma build_keys_In_from docs e x :
  let e' := fold_left (fun e '(id, title, html) => addNode e id title html) docs e in
  (In x (map fst (nodes e')) <->
   In x (map fst (nodes e)) \/ In x (map (fun '(id, _, _) => id) docs)) /\
  (In x (map fst (index e')) <->
   In x (map fst (index e)) \/
   In x (flat_map (fun '(_, _, html) => tokenize (html_text html)) docs)).
Proof.
  revert e; induction docs as [|[[id title] html] docs IH]; intros e; simpl; [tauto|].
  destruct (IH (addNode e id title html)) as [IH1 IH2].
  split.
  - rewrite IH1. simpl. rewrite map_set_keys_In. intuition.
  - rewrite IH2. simpl. rewrite fold_index_word_keys_In, in_app_iff. unfold html_text. intuition.
Qed.

Lemma NoDup_same_length (l1 l2 : list string) :
  NoDup l1 -> NoDup l2 -> (forall x, In x l1 <-> In x l2) -> List.length l1 = List.length l2.
Proof.
  intros H1 H2 H. apply Permutation_length, NoDup_Permutation; assumption.
Qed.

(** [getStats] of an engine built by [addNode] calls gives the number of
    distinct ids added (a node added again under the same id is counted
    once) and the number of distinct words among the tokens of all the
    added texts. *)
Theorem getStats_build docs :
  getStats (build docs) =
  (List.length (nodup string_dec (map (fun '(id, _, _) => id) docs)),
   List.length (nodup string_dec
                  (flat_map (fun '(_, _, html) => tokenize (html_text html)) docs))).
Proof.
  pose proof (build_ok docs) as (Hik & Hnk & _).
  unfold getStats. f_equal.
  - rewrite <- length_map with (f := fst). apply NoDup_same_length; [exact Hnk|apply NoDup_nodup|].
    intros x. rewrite nodup_In. unfold build. rewrite (proj1 (build_keys_In_from docs empty_engine x)).
    simpl. tauto.
  - rewrite <- length_map with (f := fst). apply NoDup_same_length; [exact Hik|apply NoDup_nodup|].
    intros x. rewrite nodup_In. unfold build. rewrite (proj2 (build_keys_In_from docs empty_engine x)).
    simpl. tauto.
Qed.

End SearchExtras.

Module DiscoveryExtras.
Import Discovery DiscoveryDefs DiscoveryFacts.

Lemma StronglySorted_app_single {A} (R : A -> A -> Prop) l x :
  StronglySorted R l -> Forall (fun a => R a x) l -> StronglySorted R (l ++ [x]).
Proof.
  induction 1 as [|a l Hl IH Ha]; intros Hx; simpl.
  - repeat constructor.
  - inversion Hx as [|? ? Hax Hx']; subst. constructor; [apply IH, Hx'|].
    apply Forall_app. split; [exact Ha|constructor; [exact Hax|constructor]].
Qed.

Lemma advance_odd p st :
  String.eqb p "mwb" = true -> 1 <= currentMonth st <= 12 ->
  Z.odd (currentMonth st) = true -> Z.odd (currentMonth (advance p st)) = true.
Proof.
  intros Hp Hm Ho. unfold advance. rewrite Hp.
  destruct (currentMonth st + 2 >? 12); simpl.
  - replace (currentMonth st + 2 - 12) with (currentMonth st + 2 * (-5)) by lia.
    rewrite Z.odd_add_mul_2. exact Ho.
  - replace (currentMonth st + 2) with (currentMonth st + 2 * 1) by lia.
    rewrite Z.odd_add_mul_2. exact Ho.
Qed.

Lemma InvOrd_advance p k0 st :
  InvOrd_rel Z.le p k0 st -> InvOrd_rel Z.lt p k0 (advance p st).
Proof.
  intros (Hm & Ho & Hk0 & ms & Hms & Hf & Hs).
  destruct (advance_spec p st Hm) as (Hm' & Hk & _ & Hd).
  split; [exact Hm'|]. split; [intros Hp; apply advance_odd; auto|].
  split; [lia|]. exists ms. rewrite Hd. split; [exact Hms|]. split; [|exact Hs].
  eapply Forall_impl; [|exact Hf]. simpl. intros ym (? & ? & ? & ?). repeat split; auto; lia.
Qed.

Lemma InvOrd_step p l k0 st r :
  InvOrd_rel Z.lt p k0 st -> InvOrd_rel Z.lt p k0 (step p l st r).
Proof.
  intros (Hm & Ho & Hk0 & ms & Hms & Hf & Hs). unfold step. apply InvOrd_advance.
  assert (Hf' : Forall (fun ym => 1 <= snd ym <= 12 /\
                      (String.eqb p "mwb" = true -> Z.odd (snd ym) = true) /\
                      k0 <= ym_key ym /\
                      ym_key ym <= key (currentYear st) (currentMonth st)) ms).
  { eapply Forall_impl; [|exact Hf]. intros ym (? & ? & ? & ?). repeat split; auto; lia. }
  assert (Hmiss : InvOrd_rel Z.le p k0 (mkState (currentYear st) (currentMonth st)
                                           (notFoundCount st + 1) (discovered st)))
    by (unfold InvOrd_rel; simpl; split; [exact Hm|split; [exact Ho|split; [lia|exists ms; auto]]]).
  destruct r as [status body|]; [|exact Hmiss].
  destruct (status =? 200); [|exact Hmiss].
  destruct body as [|files]; [exact Hmiss|].
  destruct (langData_of files l) as [ld|].
  - unfold InvOrd_rel; simpl. split; [exact Hm|split; [exact Ho|split; [lia|]]].
    exists (ms ++ [(currentYear st, currentMonth st)]). split; [|split].
    + rewrite !map_app, Hms. reflexivity.
    + apply Forall_app. split; [exact Hf'|]. constructor; [|constructor].
      unfold ym_key. simpl. repeat split; auto; lia.
    + apply StronglySorted_app_single; [exact Hs|].
      eapply Forall_impl; [|exact Hf]. intros ym (_ & _ & _ & H). exact H.
  - unfold InvOrd_rel; simpl. split; [exact Hm|split; [exact Ho|split; [lia|exists ms; auto]]].
Qed.

Lemma InvOrd_run p l k0 st rs st' rest :
  InvOrd_rel Z.lt p k0 st -> run p l st rs = Some (st', rest) -> InvOrd_rel Z.lt p k0 st'.
Proof.
  revert st. induction rs as [|r rs IH]; intros st HI Hr; simpl in Hr.
  - destruct (_ <? _); [discriminate|]. injection Hr as <- _. exact HI.
  - destruct (_ <? _); [|injection Hr as <- _; exact HI].
    apply (IH _ (InvOrd_step p l k0 st r HI) Hr).
Qed.

Lemma InvOrd_init p g :
  0 <= g <= 11 ->
  InvOrd_rel Z.lt p (key 2025 (currentMonth (init p g))) (init p g).
Proof.
  intros H. unfold InvOrd_rel. simpl.
  assert (Hm : 1 <= (if String.eqb p "mwb"
                     then if (g + 1) mod 2 =? 0 then g + 1 - 1 else g + 1
                     else g + 1) <= 12).
  { destruct (String.eqb p "mwb"); [|lia].
    destruct ((g + 1) mod 2 =? 0) eqn:E; [|lia].
    apply Z.eqb_eq in E. assert (g <> 0) by (intros ->; discriminate E). lia. }
  split; [exact Hm|]. split.
  - intros ->. destruct ((g + 1) mod 2 =? 0) eqn:E.
    + apply Z.eqb_eq in E. rewrite Zmod_odd in E.
      destruct (Z.odd (g + 1)) eqn:Ho; [discriminate|].
      replace (g + 1 - 1) with g by lia.
      rewrite Z.add_1_r, Z.odd_succ in Ho. rewrite <- Z.negb_even, Ho. reflexivity.
    + apply Z.eqb_neq in E. rewrite Zmod_odd in E.
      destruct (Z.odd (g + 1)); [reflexivity|contradiction].
  - split; [lia|]. exists []. simpl. repeat constructor.
Qed.

(** ** Extra properties of [discover] *)

(** For a real start month ([getMonth()] in 0..11), the issues [discover]
    returns are [issueDate y m] codes whose (year, month) pairs strictly
    increase along the list, never come before the start month of 2025,
    have a month in 1..12 and, for [pub = "mwb"], an odd month (the first
    month of each two-month edition). *)
Theorem discover_issues_in_order p l g rs ds rest :
  0 <= g <= 11 -> discover p l g rs = Some (ds, rest) ->
  exists ms : list (Z * Z),
    map issue ds = map (fun ym => issueDate (fst ym) (snd ym)) ms /\
    Forall (fun ym => 1 <= snd ym <= 12 /\
                      (p = "mwb"%string -> Z.odd (snd ym) = true) /\
                      key 2025 (currentMonth (init p g)) <= ym_key ym) ms /\
    StronglySorted (fun a b => ym_key a < ym_key b) ms.
Proof.
  intros Hg Hd. unfold discover in Hd.
  destruct (run p l (init p g) rs) as [[st rest']|] eqn:Hr; [|discriminate].
  injection Hd as <- _.
  destruct (InvOrd_run p l _ _ _ _ _ (InvOrd_init p g Hg) Hr)
    as (_ & _ & _ & ms & Hms & Hf & Hs).
  exists ms. split; [exact Hms|]. split; [|exact Hs].
  eapply Forall_impl; [|exact Hf]. intros ym (H1 & H2 & H3 & _).
  split; [exact H1|]. split; [|exact H3].
  intros Hp. apply H2, String.eqb_eq, Hp.
Qed.

Lemma discover_issues_in_order_witness :
  exists ds rest,
    (0 <= 10 <= 11 /\ discover "mwb" "S" 10 sample_responses = Some (ds, rest)) /\
    exists ms : list (Z * Z),
      map issue ds = map (fun ym => issueDate (fst ym) (snd ym)) ms /\
      Forall (fun ym => 1 <= snd ym <= 12 /\
                        ("mwb"%string = "mwb"%string -> Z.odd (snd ym) = true) /\
                        key 2025 (currentMonth (init "mwb" 10)) <= ym_key ym) ms /\
      StronglySorted (fun a b => ym_key a < ym_key b) ms.
Proof.
  destruct (discover "mwb" "S" 10 sample_responses) as [[ds rest]|] eqn:E;
    [|vm_compute in E; discriminate].
  exists ds, rest.
  assert (H : 0 <= 10 <= 11) by lia.
  split; [split; [exact H|reflexivity]|].
  exact (discover_issues_in_order "mwb" "S" 10 sample_responses ds rest H E).
Defined.

End DiscoveryExtras.

Module ParsingExtras.
Import Parsing ParsingDefs ParsingFacts.

Lemma map_ext_Forall {A B} (f g : A -> B) l :
  Forall (fun x => f x = g x) l -> map f l = map g l.
Proof. induction 1; simpl; congruence. Qed.

Lemma textContent_rewrite n : textContent (rewrite_tree n) = textContent n.
Proof.
  induction n as [s|t a cl ch IH] using node_ind'; [reflexivity|].
  assert (Hch : map textContent (map rewrite_tree ch) = map textContent ch)
    by (rewrite map_map; apply map_ext_Forall, IH).
  simpl. destruct (String.eqb (to_lower t) "img"); simpl; rewrite Hch; reflexivity.
Qed.

Lemma erase_img_rewrite n : erase_img (rewrite_tree n) = erase_img n.
Proof.
  induction n as [s|t a cl ch IH] using node_ind'; [reflexivity|].
  assert (Hch : map erase_img (map rewrite_tree ch) = map erase_img ch)
    by (rewrite map_map; apply map_ext_Forall, IH).
  simpl. destruct (String.eqb (to_lower t) "img") eqn:E; simpl; rewrite E, Hch; reflexivity.
Qed.

(** ** Extra properties of [parseDocument] *)

(** The paragraphs of [parseDocument] are the trimmed [textContent]s of the
    [<p>] elements of the input, in document order, with the empty ones left
    out: rewriting the images, which runs before, changes no text. *)
Theorem parseDocument_paragraphs doc docId :
  paragraphs (parseDocument doc docId) =
  filter (fun t => negb (String.eqb t EmptyString))
         (map (fun p => trim (textContent p)) (querySelectorAll "p" doc)).
Proof.
  simpl. rewrite querySelectorAll_rewrite, map_map. f_equal.
  apply map_ext. intros n. rewrite textContent_rewrite. reflexivity.
Qed.

(** The html output of [parseDocument] is the input tree with only the
    attributes and classes of [<img>] elements changed: erasing those, both
    trees are equal (same elements, tags, text, other attributes and
    classes, in the same places). *)
Theorem parseDocument_html_shape doc docId :
  map erase_img (html (parseDocument doc docId)) = map erase_img doc.
Proof. simpl. rewrite map_map. apply map_ext, erase_img_rewrite. Qed.

End ParsingExtras.
